(** * ERC-20 token faucet: Token.sol and TokenFaucet.sol

    A shallow embedding of the two Solidity contracts of the repository
    (the capped [Token] ledger and the rate-limited [TokenFaucet]) together
    with the properties stated about them.

    Storage mappings are finite maps with default value zero, [uint256]
    values are integers with Solidity 0.8 checked arithmetic (an overflow
    aborts the call with [Panic 0x11]), [require] aborts with its reason
    string, and a transaction that aborts leaves the chain state as it
    found it.

    The second part covers the code around the contracts: the deployment
    script, the address and time formatters, the wallet connection state
    and the claim timer, balance and error display of the front end. *)

From Stdlib Require Import ZArith Lia Ascii String.
From stdpp Require Import gmap strings list fin_maps pretty.

Open Scope Z_scope.

(** ** Machine integers and failures *)

Module EVM.

Definition MAX_UINT256 : Z := 2 ^ 256 - 1.

(** [block.timestamp] has type [uint256], but the values a contract can see
    are the Unix times of block headers, which the protocol keeps in 64
    bits; the states and calls considered below carry such timestamps. *)
Definition MAX_TIMESTAMP : Z := 2 ^ 64 - 1.

Definition is_uint256 (x : Z) : Prop := 0 <= x <= MAX_UINT256.
Definition is_timestamp (t : Z) : Prop := 0 <= t <= MAX_TIMESTAMP.

Definition is_uint256b (x : Z) : bool := (0 <=? x) && (x <=? MAX_UINT256).
Definition is_timestampb (t : Z) : bool := (0 <=? t) && (t <=? MAX_TIMESTAMP).

(** How a call can abort: a failed [require] carries its reason string,
    a failed arithmetic check carries the panic code. *)
Inductive Failure : Type :=
| Revert (reason : string)
| Panic (code : Z).

Definition ARITHMETIC_PANIC : Z := 17. (* 0x11 *)

Inductive Res (A : Type) : Type :=
| Ok (a : A)
| Err (e : Failure).
Arguments Ok {A} a.
Arguments Err {A} e.

(** [a + b] and [a - b] on [uint256] outside an [unchecked] block. *)
Definition checked_add (a b : Z) : Res Z :=
  if a + b <=? MAX_UINT256 then Ok (a + b) else Err (Panic ARITHMETIC_PANIC).

Definition checked_sub (a b : Z) : Res Z :=
  if b <=? a then Ok (a - b) else Err (Panic ARITHMETIC_PANIC).

End EVM.
Export EVM.

(** ** Chain state *)

Abbreviation address := N.

Definition ZERO_ADDRESS : address := 0%N.

(** A storage mapping [mapping(address => uint256)]: absent keys read as 0. *)
Definition slot (m : gmap N Z) (a : address) : Z := default 0 (m !! a).

(** The audit events of the two contracts. *)
Inductive Event : Type :=
| Transfer (from to : address) (amount : Z)
| MinterChanged (newMinter : address)
| TokensClaimed (user : address) (amount timestamp : Z)
| FaucetPaused (isPaused : bool).

(** Storage of [Token] (the inherited ERC20 and Ownable fields included). *)
Record TokenState : Type := mkToken {
  _balances : gmap N Z;
  _totalSupply : Z;
  minter : address;
  _owner : address
}.

(** Storage of [TokenFaucet]; [_status] is the ReentrancyGuard flag
    ([true] while a guarded call is running). *)
Record FaucetState : Type := mkFaucet {
  token : address;
  admin : address;
  paused : bool;
  lastClaimAt : gmap N Z;
  totalClaimed : gmap N Z;
  _status : bool
}.

(** The two deployed contracts and the event log. [this] is the address
    the faucet is deployed at. *)
Record World : Type := mkWorld {
  ledger : TokenState;
  faucet : FaucetState;
  this : address;
  events : list Event
}.

(** What a call sees of its environment. *)
Record Ctx : Type := mkCtx {
  sender : address;      (* msg.sender *)
  timestamp : Z          (* block.timestamp *)
}.

Definition set_ledger (f : TokenState -> TokenState) (w : World) : World :=
  mkWorld (f (ledger w)) (faucet w) (this w) (events w).

Definition set_faucet (f : FaucetState -> FaucetState) (w : World) : World :=
  mkWorld (ledger w) (f (faucet w)) (this w) (events w).

Definition push_event (e : Event) (w : World) : World :=
  mkWorld (ledger w) (faucet w) (this w) (events w ++ [e]).

Definition set_balance (a : address) (v : Z) (t : TokenState) : TokenState :=
  mkToken (<[a := v]> (_balances t)) (_totalSupply t) (minter t) (_owner t).

Definition set_totalSupply (v : Z) (t : TokenState) : TokenState :=
  mkToken (_balances t) v (minter t) (_owner t).

Definition set_minter (m : address) (t : TokenState) : TokenState :=
  mkToken (_balances t) (_totalSupply t) m (_owner t).

Definition set_paused (v : bool) (f : FaucetState) : FaucetState :=
  mkFaucet (token f) (admin f) v (lastClaimAt f) (totalClaimed f) (_status f).

Definition set_lastClaimAt (a : address) (v : Z) (f : FaucetState) : FaucetState :=
  mkFaucet (token f) (admin f) (paused f) (<[a := v]> (lastClaimAt f))
           (totalClaimed f) (_status f).

Definition set_totalClaimed (a : address) (v : Z) (f : FaucetState) : FaucetState :=
  mkFaucet (token f) (admin f) (paused f) (lastClaimAt f)
           (<[a := v]> (totalClaimed f)) (_status f).

Definition set_status (v : bool) (f : FaucetState) : FaucetState :=
  mkFaucet (token f) (admin f) (paused f) (lastClaimAt f) (totalClaimed f) v.

(** ** Calls: state threading with abort *)

(** A running call threads the world through its statements; when a
    statement aborts, the call stops with the failure and the world as
    written so far (the transaction layer below discards it). *)
Definition Exec (A : Type) : Type := World -> Res A * World.

Definition ret {A} (a : A) : Exec A := fun w => (Ok a, w).

Definition bind {A B} (m : Exec A) (k : A -> Exec B) : Exec B :=
  fun w =>
    match m w with
    | (Ok a, w') => k a w'
    | (Err e, w') => (Err e, w')
    end.

Notation "'let!' x ':=' m 'in' k" := (bind m (fun x => k))
  (at level 10, x name, m at level 100, k at level 200).
Notation "m ';;' k" := (bind m (fun _ => k))
  (at level 100, k at level 200, right associativity).

Definition read {A} (f : World -> A) : Exec A := fun w => (Ok (f w), w).
Definition write (f : World -> World) : Exec unit := fun w => (Ok tt, f w).
Definition lift {A} (r : Res A) : Exec A := fun w => (r, w).

Definition require (cond : bool) (reason : string) : Exec unit :=
  fun w => if cond then (Ok tt, w) else (Err (Revert reason), w).

Definition emit (e : Event) : Exec unit := write (push_event e).

(** ** Token.sol *)

Module Token.

(** [uint256 public constant MAX_SUPPLY = 100_000 * 10 ** 18] *)
Definition MAX_SUPPLY : Z := 100000 * 10 ^ 18.

(** Modelled from the spec: the inherited OpenZeppelin [ERC20.totalSupply]
    is not among the sources; it is a pure read of the supply counter. *)
Definition totalSupply : Exec Z := read (fun w => _totalSupply (ledger w)).

(** Modelled from the spec: the inherited OpenZeppelin [ERC20.balanceOf] is
    not among the sources; it is a pure read returning 0 for unknown
    accounts. *)
Definition balanceOf (account : address) : Exec Z :=
  read (fun w => slot (_balances (ledger w)) account).

(** Modelled from the spec: the inherited OpenZeppelin [ERC20._mint] is not
    among the sources; it credits [account] by [amount], increases the total
    supply by the same amount and emits a transfer event whose sender is the
    null account. *)
Definition _mint (account : address) (amount : Z) : Exec unit :=
  let! supply := totalSupply in
  let! supply' := lift (checked_add supply amount) in
  write (set_ledger (set_totalSupply supply'));;
  let! balance := balanceOf account in
  let! balance' := lift (checked_add balance amount) in
  write (set_ledger (set_balance account balance'));;
  emit (Transfer ZERO_ADDRESS account amount).

(** Modelled from the spec: the inherited OpenZeppelin [ERC20.transfer] is
    not among the sources; it fails with InsufficientBalance if the sender
    holds less than [amount], and otherwise moves [amount] from the sender's
    entry to the entry of [to], the sum of the balances staying as it is. *)
Definition transfer (c : Ctx) (to : address) (amount : Z) : Exec bool :=
  let! fromBalance := balanceOf (sender c) in
  require (amount <=? fromBalance) "ERC20: transfer amount exceeds balance";;
  write (set_ledger (set_balance (sender c) (fromBalance - amount)));;
  let! toBalance := balanceOf to in
  write (set_ledger (set_balance to (toBalance + amount)));;
  emit (Transfer (sender c) to amount);;
  ret true.

(** Modelled from the spec: the inherited OpenZeppelin [Ownable.onlyOwner]
    modifier is not among the sources; it rejects every caller but the
    stored owner. *)
Definition onlyOwner (c : Ctx) (body : Exec unit) : Exec unit :=
  let! o := read (fun w => _owner (ledger w)) in
  require (sender c =? o)%N "Ownable: caller is not the owner";;
  body.

(** [constructor(address _minter)], run by [deployer]. *)
Definition constructor (deployer _minter : address) : Res TokenState :=
  if (_minter =? ZERO_ADDRESS)%N
  then Err (Revert "Minter cannot be zero address")
  else Ok (mkToken ∅ 0 _minter deployer).

(** [function setMinter(address _newMinter) external onlyOwner] *)
Definition setMinter (c : Ctx) (_newMinter : address) : Exec unit :=
  onlyOwner c (
    require (negb (_newMinter =? ZERO_ADDRESS)%N) "Minter cannot be zero address";;
    write (set_ledger (set_minter _newMinter));;
    emit (MinterChanged _newMinter)).

(** [function mint(address to, uint256 amount) external] *)
Definition mint (c : Ctx) (to : address) (amount : Z) : Exec unit :=
  let! m := read (fun w => minter (ledger w)) in
  require (sender c =? m)%N "Only minter can mint tokens";;
  require (negb (to =? ZERO_ADDRESS)%N) "Cannot mint to zero address";;
  let! supply := totalSupply in
  let! total := lift (checked_add supply amount) in
  require (total <=? MAX_SUPPLY) "Exceeds maximum supply";;
  _mint to amount.

(** [function decimals() public pure override returns (uint8)] *)
Definition decimals : Z := 18.

End Token.

(** ** TokenFaucet.sol *)

Module TokenFaucet.

(** [uint256 public constant FAUCET_AMOUNT = 100 * 10 ** 18] *)
Definition FAUCET_AMOUNT : Z := 100 * 10 ^ 18.

(** [uint256 public constant COOLDOWN_TIME = 24 hours] *)
Definition COOLDOWN_TIME : Z := 24 * 3600.

(** [uint256 public constant MAX_CLAIM_AMOUNT = 1000 * 10 ** 18] *)
Definition MAX_CLAIM_AMOUNT : Z := 1000 * 10 ^ 18.

(** Modelled from the spec: the inherited OpenZeppelin
    [ReentrancyGuard.nonReentrant] modifier is not among the sources; the
    lock is checked and rejected if already held, set on entry and cleared
    on exit. *)
Definition nonReentrant (body : Exec unit) : Exec unit :=
  let! held := read (fun w => _status (faucet w)) in
  require (negb held) "ReentrancyGuard: reentrant call";;
  write (set_faucet (set_status true));;
  body;;
  write (set_faucet (set_status false)).

(** [constructor(address _token)], run by [deployer]. *)
Definition constructor (deployer _token : address) : Res FaucetState :=
  if (_token =? ZERO_ADDRESS)%N
  then Err (Revert "Token address cannot be zero")
  else Ok (mkFaucet _token deployer false ∅ ∅ false).

(** [function requestTokens() external nonReentrant] *)
Definition requestTokens (c : Ctx) : Exec unit :=
  nonReentrant (
    let! p := read (fun w => paused (faucet w)) in
    require (negb p) "Faucet is currently paused";;
    let! last := read (fun w => slot (lastClaimAt (faucet w)) (sender c)) in
    let! ready := lift (checked_add last COOLDOWN_TIME) in
    require (ready <=? timestamp c) "Must wait 24 hours between claims";;
    let! claimed := read (fun w => slot (totalClaimed (faucet w)) (sender c)) in
    let! after := lift (checked_add claimed FAUCET_AMOUNT) in
    require (after <=? MAX_CLAIM_AMOUNT) "Lifetime claim limit reached";;
    (* Update state before external call (checks-effects-interactions) *)
    write (set_faucet (set_lastClaimAt (sender c) (timestamp c)));;
    let! claimed := read (fun w => slot (totalClaimed (faucet w)) (sender c)) in
    let! claimed' := lift (checked_add claimed FAUCET_AMOUNT) in
    write (set_faucet (set_totalClaimed (sender c) claimed'));;
    (* Mint tokens to user: the token sees the faucet as its caller *)
    let! self := read this in
    Token.mint (mkCtx self (timestamp c)) (sender c) FAUCET_AMOUNT;;
    emit (TokensClaimed (sender c) FAUCET_AMOUNT (timestamp c))).

(** [function canClaim(address user) external view returns (bool)] *)
Definition canClaim (c : Ctx) (user : address) : Exec bool :=
  let! p := read (fun w => paused (faucet w)) in
  if p then ret false else
  let! last := read (fun w => slot (lastClaimAt (faucet w)) user) in
  let! ready := lift (checked_add last COOLDOWN_TIME) in
  if timestamp c <? ready then ret false else
  let! claimed := read (fun w => slot (totalClaimed (faucet w)) user) in
  if MAX_CLAIM_AMOUNT <=? claimed then ret false else
  ret true.

(** [function remainingAllowance(address user) external view returns (uint256)] *)
Definition remainingAllowance (user : address) : Exec Z :=
  let! claimed := read (fun w => slot (totalClaimed (faucet w)) user) in
  let! remaining := lift (checked_sub MAX_CLAIM_AMOUNT claimed) in
  ret (if 0 <? remaining then remaining else 0).

(** [function isPaused() external view returns (bool)] *)
Definition isPaused : Exec bool := read (fun w => paused (faucet w)).

(** [function setPaused(bool _paused) external] *)
Definition setPaused (c : Ctx) (_paused : bool) : Exec unit :=
  let! a := read (fun w => admin (faucet w)) in
  require (sender c =? a)%N "Only admin can pause faucet";;
  write (set_faucet (set_paused _paused));;
  emit (FaucetPaused _paused).

End TokenFaucet.

(** ** Transactions and reachable states *)

Inductive Outcome : Type :=
| Success
| Reverted (e : Failure).

(** An external call is all-or-nothing: when the call aborts, every write
    and every event of the call is discarded. *)
Definition transact (m : Exec unit) (w : World) : World * Outcome :=
  match m w with
  | (Ok _, w') => (w', Success)
  | (Err e, _) => (w, Reverted e)
  end.

(** A read-only call ([view] function): the value it returns, if any. *)
Definition view {A} (m : Exec A) (w : World) : Res A := fst (m w).

(** The state-changing entry points of the two contracts. *)
Inductive Call : Type :=
| RequestTokens
| SetPaused (_paused : bool)
| Mint (to : address) (amount : Z)
| SetMinter (_newMinter : address)
| TransferTokens (to : address) (amount : Z).

Record Tx : Type := mkTx {
  tx_ctx : Ctx;
  tx_call : Call
}.

Definition dispatch (c : Ctx) (call : Call) : Exec unit :=
  match call with
  | RequestTokens => TokenFaucet.requestTokens c
  | SetPaused v => TokenFaucet.setPaused c v
  | Mint to amount => Token.mint c to amount
  | SetMinter m => Token.setMinter c m
  | TransferTokens to amount => (let! _ := Token.transfer c to amount in ret tt)
  end.

Definition step (tx : Tx) (w : World) : World :=
  fst (transact (dispatch (tx_ctx tx) (tx_call tx)) w).

Definition run (txs : list Tx) (w : World) : World :=
  fold_left (fun w tx => step tx w) txs w.

(** Arguments are well-formed for their Solidity types. *)
Definition valid_callb (call : Call) : bool :=
  match call with
  | Mint _ amount => is_uint256b amount
  | TransferTokens _ amount => is_uint256b amount
  | _ => true
  end.

Definition valid_txb (tx : Tx) : bool :=
  is_timestampb (timestamp (tx_ctx tx)) && valid_callb (tx_call tx).

Definition valid_tx (tx : Tx) : Prop := valid_txb tx = true.

(** The system right after deployment: [Token] constructed by [tokenOwner]
    with [_minter], [TokenFaucet] constructed by [faucetAdmin] at address
    [faucetAddr] with the token's address. *)
Definition deploy (tokenOwner _minter faucetAdmin faucetAddr tokenAddr : address)
  : Res World :=
  match Token.constructor tokenOwner _minter with
  | Err e => Err e
  | Ok t =>
      match TokenFaucet.constructor faucetAdmin tokenAddr with
      | Err e => Err e
      | Ok f => Ok (mkWorld t f faucetAddr [])
      end
  end.

Inductive reachable : World -> Prop :=
| reachable_deploy tokenOwner _minter faucetAdmin faucetAddr tokenAddr w :
    deploy tokenOwner _minter faucetAdmin faucetAddr tokenAddr = Ok w ->
    reachable w
| reachable_step tx w :
    reachable w -> valid_tx tx -> reachable (step tx w).

(** The deployment the repository intends: the faucet is the minter. *)
Definition genesis : World :=
  mkWorld (mkToken ∅ 0 100%N 1%N) (mkFaucet 200%N 1%N false ∅ ∅ false) 100%N [].

Definition claim_at (a : address) (t : Z) : Tx := mkTx (mkCtx a t) RequestTokens.

Import Token TokenFaucet.

(** ** Vocabulary of the statements *)

(** The failure kinds, by the reason the contracts give. *)
Definition FaucetPausedError : Failure := Revert "Faucet is currently paused".
Definition CooldownActive : Failure := Revert "Must wait 24 hours between claims".
Definition LifetimeLimitReached : Failure := Revert "Lifetime claim limit reached".
Definition ReentrantCall : Failure := Revert "ReentrancyGuard: reentrant call".
Definition OnlyAdmin : Failure := Revert "Only admin can pause faucet".
Definition OnlyMinter : Failure := Revert "Only minter can mint tokens".
Definition ZeroAddress : Failure := Revert "Cannot mint to zero address".
Definition SupplyExceeded : Failure := Revert "Exceeds maximum supply".
Definition NotOwner : Failure := Revert "Ownable: caller is not the owner".
Definition ZeroMinter : Failure := Revert "Minter cannot be zero address".
Definition InsufficientBalance : Failure :=
  Revert "ERC20: transfer amount exceeds balance".
Definition ArithmeticPanic : Failure := Panic ARITHMETIC_PANIC.

(** The outcome of a call, and the state it leaves. *)
Definition outcome (m : Exec unit) (w : World) : Outcome := snd (transact m w).
Definition after (m : Exec unit) (w : World) : World := fst (transact m w).

(** The world after [_mint to amount] went through. *)
Definition minted (to : address) (amount : Z) (w : World) : World :=
  push_event (Transfer ZERO_ADDRESS to amount)
    (set_ledger (set_balance to (slot (_balances (ledger w)) to + amount))
       (set_ledger (set_totalSupply (_totalSupply (ledger w) + amount)) w)).

(** The world after [transfer] moved [amount] from [from] to [to]. *)
Definition transferred (from to : address) (amount : Z) (w : World) : World :=
  let debited :=
    set_ledger (set_balance from (slot (_balances (ledger w)) from - amount)) w in
  push_event (Transfer from to amount)
    (set_ledger (set_balance to (slot (_balances (ledger debited)) to + amount))
       debited).

(** The world after [requestTokens] went through. *)
Definition claimed (c : Ctx) (w : World) : World :=
  set_faucet (set_status false)
    (push_event (TokensClaimed (sender c) FAUCET_AMOUNT (timestamp c))
      (minted (sender c) FAUCET_AMOUNT
        (set_faucet (set_totalClaimed (sender c)
                     (slot (totalClaimed (faucet w)) (sender c) + FAUCET_AMOUNT))
          (set_faucet (set_lastClaimAt (sender c) (timestamp c))
            (set_faucet (set_status true) w))))).

(** The first check of [requestTokens] that rejects, before the mint. *)
Definition guard_failure (c : Ctx) (w : World) : option Failure :=
  if _status (faucet w)
  then Some ReentrantCall
  else if paused (faucet w)
  then Some FaucetPausedError
  else if negb (slot (lastClaimAt (faucet w)) (sender c) + COOLDOWN_TIME
                <=? MAX_UINT256)
  then Some ArithmeticPanic
  else if negb (slot (lastClaimAt (faucet w)) (sender c) + COOLDOWN_TIME
                <=? timestamp c)
  then Some CooldownActive
  else if negb (slot (totalClaimed (faucet w)) (sender c) + FAUCET_AMOUNT
                <=? MAX_UINT256)
  then Some ArithmeticPanic
  else if negb (slot (totalClaimed (faucet w)) (sender c) + FAUCET_AMOUNT
                <=? MAX_CLAIM_AMOUNT)
  then Some LifetimeLimitReached
  else None.

(** The check of [Token.mint] that rejects, if any. *)
Definition mint_failure (c : Ctx) (to : address) (amount : Z) (w : World)
  : option Failure :=
  if negb (sender c =? minter (ledger w))%N
  then Some OnlyMinter
  else if (to =? ZERO_ADDRESS)%N
  then Some ZeroAddress
  else if negb (_totalSupply (ledger w) + amount <=? MAX_UINT256)
  then Some ArithmeticPanic
  else if negb (_totalSupply (ledger w) + amount <=? MAX_SUPPLY)
  then Some SupplyExceeded
  else if negb (slot (_balances (ledger w)) to + amount <=? MAX_UINT256)
  then Some ArithmeticPanic
  else None.

(** The sum of all balances of the ledger. *)
Definition sum_balances (m : gmap N Z) : Z :=
  map_fold (fun _ v acc => v + acc) 0 m.

Definition is_claim_of (a : address) (e : Event) : bool :=
  match e with
  | TokensClaimed user _ _ => (user =? a)%N
  | _ => false
  end.

(** How many successful claims of [a] the log records. *)
Definition claims_of (a : address) (evs : list Event) : Z :=
  Z.of_nat (length (List.filter (is_claim_of a) evs)).

(** [tx], run on [w], is a successful claim of [A]. *)
Definition claims_in (A : address) (tx : Tx) (w : World) : Prop :=
  tx_call tx = RequestTokens /\ sender (tx_ctx tx) = A /\
  outcome (dispatch (tx_ctx tx) (tx_call tx)) w = Success.

(** What holds of every state the deployed system can be in. *)
Record consistent (w : World) : Prop := mkConsistent {
  lock_free : _status (faucet w) = false;
  supply_capped : _totalSupply (ledger w) <= MAX_SUPPLY;
  supply_is_sum : sum_balances (_balances (ledger w)) = _totalSupply (ledger w);
  balances_nonneg : forall a, 0 <= slot (_balances (ledger w)) a;
  last_is_timestamp : forall a, is_timestamp (slot (lastClaimAt (faucet w)) a);
  claimed_counts : forall a,
    slot (totalClaimed (faucet w)) a = claims_of a (events w) * FAUCET_AMOUNT;
  claimed_capped : forall a, slot (totalClaimed (faucet w)) a <= MAX_CLAIM_AMOUNT;
  unclaimed_last : forall a,
    claims_of a (events w) = 0 -> slot (lastClaimAt (faucet w)) a = 0
}.

(** ** Scenarios *)

(** A hundred accounts claim ten times each, a day apart: the whole supply
    is issued. *)
Definition claimers : list address := map N.of_nat (seq 1001 100).

Definition drain : list Tx :=
  flat_map (fun k => map (fun a => claim_at a (Z.of_nat k * COOLDOWN_TIME)) claimers)
           (seq 1 10).

Definition exhausted : World := run drain genesis.

(** One account claims ten times, a day apart. *)
Definition ten_claims (a : address) : list Tx :=
  map (fun k => claim_at a (Z.of_nat k * COOLDOWN_TIME)) (seq 1 10).

(** A deployment whose minter is an account of its own (5), not the faucet. *)
Definition unwired : World :=
  mkWorld (mkToken ∅ 0 5%N 1%N) (mkFaucet 200%N 1%N false ∅ ∅ false) 100%N [].

(** The minter of [unwired] issues one base unit. *)
Definition first_unit : Tx := mkTx (mkCtx 5%N 0) (Mint 7%N 1).

(** The admin of [genesis] pauses the faucet. *)
Definition pause_tx : Tx := mkTx (mkCtx 1%N 86401) (SetPaused true).

(** * The code around the contracts *)

(** ** The log as a history of claims *)

Definition is_claim (e : Event) : bool :=
  match e with
  | TokensClaimed _ _ _ => true
  | _ => false
  end.

(** How many successful claims the log records, all accounts together. *)
Definition claims_total (evs : list Event) : Z :=
  Z.of_nat (length (List.filter is_claim evs)).

(** The timestamps of the claims of [a] in the log, oldest first. *)
Definition claim_times (a : address) (evs : list Event) : list Z :=
  flat_map (fun e =>
    match e with
    | TokensClaimed user _ t => if (user =? a)%N then [t] else []
    | _ => []
    end) evs.

(** Each timestamp is at least [COOLDOWN_TIME] after the one before it,
    the first one at least [COOLDOWN_TIME] after [prev]. *)
Fixpoint spaced_from (prev : Z) (ts : list Z) : Prop :=
  match ts with
  | [] => True
  | t :: rest => prev + COOLDOWN_TIME <= t /\ spaced_from t rest
  end.

(** ** scripts/deploy.js *)

Definition ZeroToken : Failure := Revert "Token address cannot be zero".

(** The on-chain steps of [main], all sent by [deployer]: deploy [Token]
    with [initialMinter] as minter, deploy [TokenFaucet] with the token's
    address, then call [setMinter] with the faucet's address.
    [tokenAddress] and [faucetAddress] are the addresses the chain gives
    the two contracts. *)
Definition deploy_steps (initialMinter deployer tokenAddress faucetAddress : address)
    (now : Z) : Res World :=
  match Token.constructor deployer initialMinter with
  | Err e => Err e
  | Ok t =>
      match TokenFaucet.constructor deployer tokenAddress with
      | Err e => Err e
      | Ok f =>
          match transact (Token.setMinter (mkCtx deployer now) faucetAddress)
                  (mkWorld t f faucetAddress []) with
          | (w, Success) => Ok w
          | (_, Reverted e) => Err e
          end
      end
  end.

(** [main] deploys the token with the zero address: "Initially deploy
    with zero address, then update". *)
Definition deploy_main : address -> address -> address -> Z -> Res World :=
  deploy_steps ZERO_ADDRESS.

(** ** JavaScript values used by the frontend

    Strings are lists of characters; the Numbers the frontend computes
    with are integers below [2^53], on which the arithmetic of doubles is
    exact. *)

Abbreviation chars := list_ascii_of_string.

(** An integer in a template literal: its decimal digits. *)
Definition show (n : Z) : list ascii := chars (pretty n).

Definition MAX_SAFE_INTEGER : Z := 2 ^ 53 - 1.

Definition is_safe_integer (n : Z) : Prop := 0 <= n <= MAX_SAFE_INTEGER.

(** An index argument of [String.prototype.slice]: negative indices count
    from the end, and everything is clamped to the string. *)
Definition clamp_index (len i : Z) : Z :=
  if i <? 0 then Z.max (len + i) 0 else Z.min i len.

(** [s.slice(start, stop)]; [stop] is [None] when the argument is omitted. *)
Definition slice (s : list ascii) (start : Z) (stop : option Z) : list ascii :=
  let len := Z.of_nat (length s) in
  let from := clamp_index len start in
  let to := match stop with Some e => clamp_index len e | None => len end in
  take (Z.to_nat (to - from)) (drop (Z.to_nat from) s).

Fixpoint starts_with (sub s : list ascii) : bool :=
  match sub, s with
  | [], _ => true
  | c :: sub', d :: s' => Ascii.eqb c d && starts_with sub' s'
  | _ :: _, [] => false
  end.

(** [s.includes(sub)] *)
Fixpoint includes (s sub : list ascii) : bool :=
  starts_with sub s ||
  match s with
  | [] => false
  | _ :: s' => includes s' sub
  end.

(** [s.padStart(n, c)] with a one-character filler. *)
Definition padStart (n : nat) (c : ascii) (s : list ascii) : list ascii :=
  replicate (n - length s) c ++ s.

(** The regular expressions the frontend uses: literals, character
    classes given by ranges, sequences and counted repetition. *)
Inductive Regex : Type :=
| Lit (c : ascii)
| Class (ranges : list (ascii * ascii))
| Seq (r1 r2 : Regex)
| Times (n : nat) (r : Regex).

Definition in_range (c : ascii) (range : ascii * ascii) : bool :=
  (nat_of_ascii (fst range) <=? nat_of_ascii c)%nat &&
  (nat_of_ascii c <=? nat_of_ascii (snd range))%nat.

(** What is left of [s] after each way of matching [r] at its start. *)
Fixpoint match_prefix (r : Regex) (s : list ascii) : list (list ascii) :=
  match r with
  | Lit c =>
      match s with
      | d :: s' => if Ascii.eqb c d then [s'] else []
      | [] => []
      end
  | Class ranges =>
      match s with
      | d :: s' => if existsb (in_range d) ranges then [s'] else []
      | [] => []
      end
  | Seq r1 r2 => flat_map (match_prefix r2) (match_prefix r1 s)
  | Times n r' =>
      Nat.iter n (fun rests => flat_map (match_prefix r') rests) [s]
  end.

(** [/^r$/.test(s)]: some match of [r] consumes all of [s]. *)
Definition test_anchored (r : Regex) (s : list ascii) : bool :=
  existsb (fun rest => match rest with [] => true | _ => false end)
          (match_prefix r s).

(** ** frontend/src/utils/formatters.js *)

Module Formatters.

(** [export function formatAddress(address)]; [None] stands for a missing
    ([null] or [undefined]) argument. *)
Definition formatAddress (address : option (list ascii)) : list ascii :=
  match address with
  | None => []
  | Some [] => []
  | Some s => slice s 0 (Some 6) ++ chars "..." ++ slice s (-4) None
  end.

(** [export function formatTimeRemaining(cooldownEndTime, currentTime)],
    both arguments integers. *)
Definition formatTimeRemaining (cooldownEndTime currentTime : Z) : list ascii :=
  let cooldownEnd := cooldownEndTime in
  let now := currentTime in
  if cooldownEnd <=? now then chars "Ready" else
  let remaining := cooldownEnd - now in
  let days := remaining / 86400 in
  let hours := Z.rem remaining 86400 / 3600 in
  let minutes := Z.rem remaining 3600 / 60 in
  if 0 <? days then show days ++ chars "d " ++ show hours ++ chars "h"
  else if 0 <? hours then show hours ++ chars "h " ++ show minutes ++ chars "m"
  else show minutes ++ chars "m".

(** [/^0x[a-fA-F0-9]{40}$/] *)
Definition ADDRESS_PATTERN : Regex :=
  Seq (Lit "0") (Seq (Lit "x")
    (Times 40 (Class [("a", "f"); ("A", "F"); ("0", "9")]%char))).

(** [export function isValidAddress(address)] *)
Definition isValidAddress (address : list ascii) : bool :=
  test_anchored ADDRESS_PATTERN address.

(** What [calculatePercentage] needs of the Numbers of the engine: the
    literal [0], strict equality, the integer a Number holds if it holds
    one, rounding, and the readings of a string as a Number and as a
    BigInt literal. *)
Class Numbers : Type := {
  Number : Type;
  zero : Number;
  strict_eq : Number -> Number -> bool;
  integral : Number -> option Z;
  round : Number -> Number;
  string_to_number : list ascii -> Number;
  string_to_bigint : list ascii -> option Z
}.

(** The arguments [calculatePercentage] may be given. *)
Inductive JsValue `{Numbers} : Type :=
| JsNumber (x : Number)
| JsBigInt (n : Z)
| JsString (s : list ascii).

Inductive JsError : Type :=
| TypeError
| RangeError
| SyntaxError.

(** [total === 0] *)
Definition is_number_zero `{Numbers} (v : JsValue) : bool :=
  match v with
  | JsNumber x => strict_eq x zero
  | _ => false
  end.

(** [BigInt(v)]: a Number must hold an integer, a string must read as a
    BigInt literal. *)
Definition BigInt `{Numbers} (v : JsValue) : JsError + Z :=
  match v with
  | JsNumber x =>
      match integral x with
      | Some n => inr n
      | None => inl RangeError
      end
  | JsBigInt n => inr n
  | JsString s =>
      match string_to_bigint s with
      | Some n => inr n
      | None => inl SyntaxError
      end
  end.

(** [a / b] on BigInts: division by zero throws, the quotient is
    truncated. *)
Definition bigint_div (a b : Z) : JsError + Z :=
  if b =? 0 then inl RangeError else inr (Z.quot a b).

(** [Math.round(v)]: the argument is converted to a Number first, which a
    BigInt refuses. *)
Definition Math_round `{Numbers} (v : JsValue) : JsError + JsValue :=
  match v with
  | JsNumber x => inr (JsNumber (round x))
  | JsBigInt _ => inl TypeError
  | JsString s => inr (JsNumber (round (string_to_number s)))
  end.

(** [export function calculatePercentage(current, total)] *)
Definition calculatePercentage `{Numbers} (current total : JsValue)
  : JsError + JsValue :=
  if is_number_zero total then inr (JsNumber zero) else
  match BigInt current with
  | inl e => inl e
  | inr c =>
      match BigInt total with
      | inl e => inl e
      | inr t =>
          match bigint_div (c * 100) t with
          | inl e => inl e
          | inr q => Math_round (JsBigInt q)
          end
      end
  end.

(** Numbers that are all integers, to run [calculatePercentage] on. *)
Definition integer_numbers : Numbers := {|
  Number := Z;
  zero := 0;
  strict_eq := Z.eqb;
  integral := Some;
  round := id;
  string_to_number := fun _ => 0;
  string_to_bigint := fun _ => None
|}.

End Formatters.

(** ** The wallet utilities of the frontend *)

Module Wallet.

(** The events the module dispatches on [window]. *)
Inductive WindowEvent : Type :=
| WalletDisconnected
| AccountChanged (address : list ascii)
| ChainChanged.

(** The two module variables, the number of times [setupWalletListeners]
    has registered its three handlers on the provider, and the events
    dispatched on [window] so far. *)
Record State : Type := mkState {
  walletConnected : bool;
  connectedAddress : option (list ascii);
  listeners : nat;
  dispatched : list WindowEvent
}.

Definition initial : State := mkState false None 0 [].

(** What the wallet answers to [eth_requestAccounts]: an accounts array
    ([None] when it is missing), or a rejection with its message. *)
Inductive Response : Type :=
| Accounts (accounts : option (list (list ascii)))
| Rejected (message : list ascii).

Definition dispatchEvent (e : WindowEvent) (st : State) : State :=
  mkState (walletConnected st) (connectedAddress st) (listeners st)
          (dispatched st ++ [e]).

(** [export function disconnectWallet()] *)
Definition disconnectWallet (st : State) : State :=
  mkState false None (listeners st) (dispatched st).

(** [export function getConnectedAddress()] *)
Definition getConnectedAddress (st : State) : option (list ascii) :=
  connectedAddress st.

(** [export function isWalletConnected()] *)
Definition isWalletConnected (st : State) : bool :=
  walletConnected st &&
  match connectedAddress st with Some _ => true | None => false end.

(** [function setupWalletListeners()], called with a provider present. *)
Definition setupWalletListeners (st : State) : State :=
  mkState (walletConnected st) (connectedAddress st) (S (listeners st))
          (dispatched st).

(** [export async function connectWallet()]; [hasWallet] tells whether a
    provider is present. The result is the error message thrown or the
    address returned. *)
Definition connectWallet (hasWallet : bool) (response : Response) (st : State)
  : (list ascii + list ascii) * State :=
  if negb hasWallet
  then (inl (chars "MetaMask or Web3 wallet not detected"), st)
  else
    match response with
    | Accounts (Some (account :: _)) =>
        (inr account,
         setupWalletListeners
           (mkState true (Some account) (listeners st) (dispatched st)))
    | Accounts _ =>
        (inl (chars "Failed to connect wallet: "
              ++ chars "No accounts returned from wallet"),
         disconnectWallet st)
    | Rejected message =>
        (inl (chars "Failed to connect wallet: " ++ message),
         disconnectWallet st)
    end.

(** The events of the provider the handlers listen to. *)
Inductive ProviderEvent : Type :=
| accountsChanged (accounts : list (list ascii))
| chainChanged
| disconnect.

(** One run of the handler registered for the event. *)
Definition handler (ev : ProviderEvent) (st : State) : State :=
  match ev with
  | accountsChanged [] => dispatchEvent WalletDisconnected (disconnectWallet st)
  | accountsChanged (account :: _) =>
      dispatchEvent (AccountChanged account)
        (mkState (walletConnected st) (Some account) (listeners st)
                 (dispatched st))
  | chainChanged => dispatchEvent ChainChanged st
  | disconnect => dispatchEvent WalletDisconnected (disconnectWallet st)
  end.

(** The provider emits an event: every registered handler runs. *)
Definition provider_emits (ev : ProviderEvent) (st : State) : State :=
  Nat.iter (listeners st) (handler ev) st.

(** What can happen to the module. *)
Inductive Action : Type :=
| Connect (hasWallet : bool) (response : Response)
| Disconnect
| Emits (ev : ProviderEvent).

Definition act (a : Action) (st : State) : State :=
  match a with
  | Connect hasWallet response => snd (connectWallet hasWallet response st)
  | Disconnect => disconnectWallet st
  | Emits ev => provider_emits ev st
  end.

Definition acts (l : list Action) (st : State) : State :=
  fold_left (fun st a => act a st) l st.

End Wallet.

(** ** The contract utilities of the frontend *)

Module Contracts.

(** The message of the error [requestTokens] throws when the transaction
    fails: the revert reason if the provider gives one, else the message of
    the error data if there is one, else the message of the error itself
    behind a prefix. *)
Definition requestTokensError (reason dataMessage : option (list ascii))
    (message : list ascii) : list ascii :=
  match reason with
  | Some (c :: r) => c :: r
  | _ =>
      match dataMessage with
      | Some (c :: m) => c :: m
      | _ => chars "Failed to request tokens: " ++ message
      end
  end.

End Contracts.

(** ** The App component of the frontend *)

Module App.


(** [const formatBalance = (balanceWei) => ...]; [balanceWei] is the
    decimal string of the balance, given by its value, [None] when it is
    missing. *)
Definition formatBalance (balanceWei : option Z) : list ascii :=
  match balanceWei with
  | None => chars "0.00"
  | Some balanceBig =>
      if balanceBig =? 0 then chars "0.00" else
      let divisor := 10 ^ 16 in
      let whole := Z.quot balanceBig (10 ^ 18) in
      let decimal := Z.quot (Z.rem balanceBig (10 ^ 18)) divisor in
      show whole ++ chars "." ++ padStart 2 "0" (show decimal)
  end.

(** The message [handleRequestTokens] shows for the error it caught. *)
Definition claimErrorMessage (errorMsg : list ascii) : list ascii :=
  if includes errorMsg (chars "Must wait 24 hours")
  then chars "⏳ Please wait 24 hours before claiming again"
  else if includes errorMsg (chars "Lifetime claim limit")
  then chars "⛔ You have reached your lifetime claim limit"
  else if includes errorMsg (chars "paused")
  then chars "🔒 Faucet is currently paused"
  else if includes errorMsg (chars "User denied")
  then chars "❌ Transaction rejected by user"
  else errorMsg.

End App.

(** The character of a decimal digit. *)
Definition digit (n : Z) : ascii := ascii_of_nat (48 + Z.to_nat n).

(** The successful connections among the actions. *)
Definition connects (l : list Wallet.Action) : nat :=
  length (List.filter (fun a =>
    match a with
    | Wallet.Connect true (Wallet.Accounts (Some (_ :: _))) => true
    | _ => false
    end) l).

(** ** Proof automation *)

Ltac exec_unfold :=
  repeat progress unfold
    Token.mint, Token._mint, Token.totalSupply, Token.balanceOf, Token.transfer,
    Token.setMinter, Token.onlyOwner,
    TokenFaucet.requestTokens, TokenFaucet.nonReentrant, TokenFaucet.canClaim,
    TokenFaucet.remainingAllowance, TokenFaucet.isPaused,
    TokenFaucet.setPaused, emit,
    bind, ret, read, require, lift, write, checked_add, checked_sub.

Ltac exec_cases :=
  repeat (exec_unfold;
          cbn -[MAX_UINT256 MAX_SUPPLY FAUCET_AMOUNT COOLDOWN_TIME
                MAX_CLAIM_AMOUNT Z.add Z.sub Z.leb Z.ltb N.eqb];
          match goal with
          | |- context [if negb ?b then _ else _] => destruct b eqn:?
          | |- context [if ?b then _ else _] => destruct b eqn:?
          end).

Ltac exec_solve := exec_cases; try reflexivity; try congruence.

Ltac bool_to_prop :=
  repeat match goal with
  | H : negb _ = true |- _ => apply negb_true_iff in H
  | H : negb _ = false |- _ => apply negb_false_iff in H
  | H : (_ && _) = true |- _ => apply andb_true_iff in H; destruct H
  | H : (_ <=? _) = true |- _ => apply Z.leb_le in H
  | H : (_ <=? _) = false |- _ => apply Z.leb_gt in H
  | H : (_ <? _) = true |- _ => apply Z.ltb_lt in H
  | H : (_ <? _) = false |- _ => apply Z.ltb_ge in H
  | H : (_ =? _)%N = true |- _ => apply N.eqb_eq in H
  | H : (_ =? _)%N = false |- _ => apply N.eqb_neq in H
  end.

(** ** Closed forms of the calls

    Each entry point is a straight line of checks followed by writes, so
    running it amounts to a cascade of tests on the state it starts from. *)

Lemma mint_transact c to amount w :
  transact (Token.mint c to amount) w =
    match mint_failure c to amount w with
    | Some e => (w, Reverted e)
    | None => (minted to amount w, Success)
    end.
Proof. unfold transact, mint_failure, minted. exec_solve. Qed.

Lemma setMinter_transact c m w :
  transact (Token.setMinter c m) w =
    if negb (sender c =? _owner (ledger w))%N
    then (w, Reverted NotOwner)
    else if (m =? ZERO_ADDRESS)%N
    then (w, Reverted ZeroMinter)
    else (push_event (MinterChanged m) (set_ledger (set_minter m) w), Success).
Proof. unfold transact. exec_solve. Qed.

Lemma transfer_transact c to amount w :
  transact (let! _ := Token.transfer c to amount in ret tt) w =
    if amount <=? slot (_balances (ledger w)) (sender c)
    then (transferred (sender c) to amount w, Success)
    else (w, Reverted InsufficientBalance).
Proof. unfold transact, transferred. exec_solve. Qed.

Lemma setPaused_transact c v w :
  transact (TokenFaucet.setPaused c v) w =
    if (sender c =? admin (faucet w))%N
    then (push_event (FaucetPaused v) (set_faucet (set_paused v) w), Success)
    else (w, Reverted OnlyAdmin).
Proof. unfold transact. exec_solve. Qed.

Lemma requestTokens_transact c w :
  transact (TokenFaucet.requestTokens c) w =
    match guard_failure c w with
    | Some e => (w, Reverted e)
    | None =>
        match mint_failure (mkCtx (this w) (timestamp c)) (sender c)
                FAUCET_AMOUNT w with
        | Some e => (w, Reverted e)
        | None => (claimed c w, Success)
        end
    end.
Proof.
  unfold transact, guard_failure, mint_failure, claimed, minted. exec_solve.
Qed.

(** When the faucet lets the caller through and the mint rejects, the call
    aborts inside [Token.mint], after both counters were assigned. *)
Lemma requestTokens_aborts_in_mint c w e :
  guard_failure c w = None ->
  mint_failure (mkCtx (this w) (timestamp c)) (sender c) FAUCET_AMOUNT w
    = Some e ->
  exists w', TokenFaucet.requestTokens c w = (Err e, w') /\
    lastClaimAt (faucet w') = <[sender c := timestamp c]> (lastClaimAt (faucet w)) /\
    totalClaimed (faucet w') =
      <[sender c := slot (totalClaimed (faucet w)) (sender c) + FAUCET_AMOUNT]>
        (totalClaimed (faucet w)).
Proof.
  unfold guard_failure, mint_failure. intros Hg Hm.
  revert Hg Hm. exec_cases; intros; simplify_eq; eexists; split;
    try reflexivity; split; reflexivity.
Qed.

Lemma canClaim_run c user w :
  TokenFaucet.canClaim c user w =
    (if paused (faucet w) then Ok false
     else if negb (slot (lastClaimAt (faucet w)) user + COOLDOWN_TIME
                   <=? MAX_UINT256)
     then Err (Panic ARITHMETIC_PANIC)
     else if timestamp c <? slot (lastClaimAt (faucet w)) user + COOLDOWN_TIME
     then Ok false
     else if MAX_CLAIM_AMOUNT <=? slot (totalClaimed (faucet w)) user
     then Ok false
     else Ok true, w).
Proof. exec_solve. Qed.

Lemma remainingAllowance_run user w :
  TokenFaucet.remainingAllowance user w =
    (if slot (totalClaimed (faucet w)) user <=? MAX_CLAIM_AMOUNT
     then Ok (if 0 <? MAX_CLAIM_AMOUNT - slot (totalClaimed (faucet w)) user
              then MAX_CLAIM_AMOUNT - slot (totalClaimed (faucet w)) user
              else 0)
     else Err (Panic ARITHMETIC_PANIC), w).
Proof. exec_solve. Qed.

(** ** Storage mappings *)

Section Mappings.

Implicit Types (m : gmap N Z) (a b : address) (v : Z).

Lemma slot_empty a : slot ∅ a = 0.
Proof. unfold slot. by rewrite lookup_empty. Qed.

Lemma slot_insert_eq m a v : slot (<[a := v]> m) a = v.
Proof. unfold slot. by rewrite lookup_insert_eq. Qed.

Lemma slot_insert_ne m a b v :
  a <> b -> slot (<[a := v]> m) b = slot m b.
Proof. intros H. unfold slot. by rewrite lookup_insert_ne. Qed.

Lemma slot_insert m a b v :
  slot (<[a := v]> m) b = if decide (a = b) then v else slot m b.
Proof.
  case_decide as H.
  - subst. apply slot_insert_eq.
  - by apply slot_insert_ne.
Qed.

Lemma sum_balances_empty : sum_balances ∅ = 0.
Proof. unfold sum_balances. apply map_fold_empty. Qed.

Lemma sum_balances_fresh m a v :
  m !! a = None -> sum_balances (<[a := v]> m) = v + sum_balances m.
Proof.
  intros H. unfold sum_balances.
  apply (map_fold_insert_L (fun _ v acc => v + acc)); [|done].
  intros; lia.
Qed.

Lemma sum_balances_delete m a :
  sum_balances m = slot m a + sum_balances (delete a m).
Proof.
  unfold slot. destruct (m !! a) as [x|] eqn:H; simpl.
  - rewrite <- (insert_delete_id m a x) at 1 by done.
    apply sum_balances_fresh, lookup_delete_eq.
  - by rewrite delete_id.
Qed.

Lemma sum_balances_insert m a v :
  sum_balances (<[a := v]> m) = sum_balances m - slot m a + v.
Proof.
  rewrite <- (insert_delete_eq m a v).
  rewrite sum_balances_fresh by apply lookup_delete_eq.
  rewrite (sum_balances_delete m a). lia.
Qed.

Lemma sum_balances_nonneg m :
  (forall a, 0 <= slot m a) -> 0 <= sum_balances m.
Proof.
  unfold sum_balances.
  induction m as [|a x m Hfresh Hfold IH] using map_first_key_ind; intros Hpos.
  - by rewrite map_fold_empty.
  - rewrite map_fold_insert_first_key by done.
    assert (0 <= x) by (specialize (Hpos a); by rewrite slot_insert_eq in Hpos).
    assert (0 <= map_fold (fun _ v acc => v + acc) 0 m).
    { apply IH. intros b. specialize (Hpos b).
      rewrite slot_insert in Hpos. case_decide; [|done].
      subst. unfold slot. by rewrite Hfresh. }
    lia.
Qed.

(** No account holds more than what was issued. *)
Lemma balance_le_sum m a :
  (forall b, 0 <= slot m b) -> slot m a <= sum_balances m.
Proof.
  intros Hpos. rewrite (sum_balances_delete m a).
  assert (0 <= sum_balances (delete a m)); [|lia].
  apply sum_balances_nonneg. intros b. unfold slot.
  destruct (decide (a = b)) as [->|Hne].
  - by rewrite lookup_delete_eq.
  - rewrite lookup_delete_ne by done. apply Hpos.
Qed.

End Mappings.

(** ** The event log as a record of claims *)

Lemma claims_of_nonneg a evs : 0 <= claims_of a evs.
Proof. unfold claims_of. lia. Qed.

Lemma claims_of_app a evs evs' :
  claims_of a (evs ++ evs') = claims_of a evs + claims_of a evs'.
Proof.
  unfold claims_of. rewrite List.filter_app, length_app. lia.
Qed.

Lemma claims_of_one a e :
  claims_of a [e] = if is_claim_of a e then 1 else 0.
Proof. unfold claims_of. simpl. by destruct (is_claim_of a e). Qed.

(** ** Invariants of the deployed system *)

Lemma guard_failure_None c w :
  guard_failure c w = None <->
  _status (faucet w) = false /\ paused (faucet w) = false /\
  slot (lastClaimAt (faucet w)) (sender c) + COOLDOWN_TIME <= MAX_UINT256 /\
  slot (lastClaimAt (faucet w)) (sender c) + COOLDOWN_TIME <= timestamp c /\
  slot (totalClaimed (faucet w)) (sender c) + FAUCET_AMOUNT <= MAX_UINT256 /\
  slot (totalClaimed (faucet w)) (sender c) + FAUCET_AMOUNT <= MAX_CLAIM_AMOUNT.
Proof.
  unfold guard_failure. split.
  - repeat case_match; intros; try discriminate; bool_to_prop; auto 10.
  - intros (-> & -> & H1 & H2 & H3 & H4).
    apply Z.leb_le in H1, H2, H3, H4. by rewrite H1, H2, H3, H4.
Qed.

Lemma mint_failure_None c to amount w :
  mint_failure c to amount w = None <->
  sender c = minter (ledger w) /\ to <> ZERO_ADDRESS /\
  _totalSupply (ledger w) + amount <= MAX_UINT256 /\
  _totalSupply (ledger w) + amount <= MAX_SUPPLY /\
  slot (_balances (ledger w)) to + amount <= MAX_UINT256.
Proof.
  unfold mint_failure. split.
  - repeat case_match; intros; try discriminate; bool_to_prop; auto 10.
  - intros (H0 & Hz & H1 & H2 & H3).
    apply N.eqb_eq in H0. apply N.eqb_neq in Hz.
    apply Z.leb_le in H1, H2, H3. by rewrite H0, Hz, H1, H2, H3.
Qed.

Lemma MAX_SUPPLY_fits : MAX_SUPPLY <= MAX_UINT256.
Proof. by vm_compute. Qed.

Lemma MAX_CLAIM_AMOUNT_fits : MAX_CLAIM_AMOUNT + FAUCET_AMOUNT <= MAX_UINT256.
Proof. by vm_compute. Qed.

Lemma MAX_TIMESTAMP_fits : MAX_TIMESTAMP + COOLDOWN_TIME <= MAX_UINT256.
Proof. by vm_compute. Qed.

Lemma COOLDOWN_TIME_pos : 0 < COOLDOWN_TIME.
Proof. by vm_compute. Qed.

Lemma FAUCET_AMOUNT_pos : 0 < FAUCET_AMOUNT.
Proof. by vm_compute. Qed.

(** On a consistent state the arithmetic checks of a claim never fire. *)
Lemma consistent_balance_le_supply w a :
  consistent w -> slot (_balances (ledger w)) a <= _totalSupply (ledger w).
Proof.
  intros Hw. rewrite <- (supply_is_sum w Hw).
  apply balance_le_sum, (balances_nonneg w Hw).
Qed.

Lemma consistent_deploy o m a f t w :
  deploy o m a f t = Ok w -> consistent w.
Proof.
  unfold deploy, Token.constructor, TokenFaucet.constructor.
  repeat case_match; intros; simplify_eq.
  split; cbn; intros; rewrite ?slot_empty, ?sum_balances_empty;
    try done; try (by vm_compute).
Qed.

Lemma consistent_minted to amount w :
  consistent w -> 0 <= amount ->
  _totalSupply (ledger w) + amount <= MAX_SUPPLY ->
  consistent (minted to amount w).
Proof.
  intros Hw Hamount Hcap. destruct Hw. split; cbn; try done.
  - rewrite sum_balances_insert. lia.
  - intros a. rewrite slot_insert. case_decide; subst; [|done].
    specialize (balances_nonneg0 a). lia.
  - intros a. rewrite claims_of_app, claims_of_one. cbn.
    rewrite claimed_counts0. lia.
  - intros a. rewrite claims_of_app, claims_of_one. cbn.
    rewrite Z.add_0_r. apply unclaimed_last0.
Qed.

Lemma consistent_transferred from to amount w :
  consistent w -> 0 <= amount ->
  amount <= slot (_balances (ledger w)) from ->
  consistent (transferred from to amount w).
Proof.
  intros Hw Hamount Hle. destruct Hw. split; cbn; try done.
  - rewrite !sum_balances_insert, <- supply_is_sum0. ring.
  - intros a. rewrite !slot_insert.
    pose proof (balances_nonneg0 to). pose proof (balances_nonneg0 a).
    repeat case_decide; subst; lia.
  - intros a. rewrite claims_of_app, claims_of_one. cbn.
    rewrite claimed_counts0. lia.
  - intros a. rewrite claims_of_app, claims_of_one. cbn.
    rewrite Z.add_0_r. apply unclaimed_last0.
Qed.

Lemma consistent_claimed c w :
  consistent w -> is_timestamp (timestamp c) ->
  guard_failure c w = None ->
  mint_failure (mkCtx (this w) (timestamp c)) (sender c) FAUCET_AMOUNT w = None ->
  consistent (claimed c w).
Proof.
  intros Hw Ht Hg Hm.
  apply guard_failure_None in Hg as (_ & _ & _ & Hcool & _ & Hlife).
  apply mint_failure_None in Hm as (_ & _ & _ & Hcap & _).
  pose proof FAUCET_AMOUNT_pos as Hpos.
  destruct Hw. split; cbn; try done.
  - rewrite sum_balances_insert. lia.
  - intros a. rewrite slot_insert. case_decide; subst; [|done].
    specialize (balances_nonneg0 (sender c)). lia.
  - intros a. rewrite slot_insert. case_decide; subst; done.
  - intros a. rewrite !claims_of_app, !claims_of_one. cbn.
    rewrite slot_insert. case_decide as Ha.
    + subst. rewrite N.eqb_refl, claimed_counts0. lia.
    + apply N.eqb_neq in Ha. rewrite Ha, claimed_counts0. lia.
  - intros a. rewrite slot_insert. case_decide; subst; [lia|done].
  - intros a. rewrite !claims_of_app, !claims_of_one. cbn.
    rewrite slot_insert. case_decide as Ha.
    + subst. rewrite N.eqb_refl.
      pose proof (claims_of_nonneg (sender c) (events w)). lia.
    + apply N.eqb_neq in Ha. rewrite Ha. intros H. apply unclaimed_last0. lia.
Qed.

Lemma valid_tx_timestamp tx : valid_tx tx -> is_timestamp (timestamp (tx_ctx tx)).
Proof.
  unfold valid_tx, valid_txb, is_timestampb, is_timestamp.
  intros H. bool_to_prop. lia.
Qed.

Lemma valid_tx_amount c to amount :
  valid_tx (mkTx c (Mint to amount)) \/ valid_tx (mkTx c (TransferTokens to amount)) ->
  is_uint256 amount.
Proof.
  unfold valid_tx, valid_txb, valid_callb, is_uint256b, is_uint256. cbn.
  intros [H|H]; bool_to_prop; lia.
Qed.

Lemma consistent_step tx w :
  consistent w -> valid_tx tx -> consistent (step tx w).
Proof.
  intros Hw Htx. pose proof (valid_tx_timestamp tx Htx) as Ht.
  destruct tx as [c [|v|to amount|m|to amount]]; unfold step;
    cbn [tx_ctx tx_call dispatch].
  - rewrite requestTokens_transact.
    destruct (guard_failure c w) eqn:Hg; [done|].
    destruct (mint_failure _ _ _ w) eqn:Hm; [done|].
    by apply consistent_claimed.
  - rewrite setPaused_transact. case_match; [|done].
    destruct Hw. split; cbn; try done.
    + intros a. rewrite claims_of_app, claims_of_one. cbn.
      rewrite claimed_counts0. lia.
    + intros a. rewrite claims_of_app, claims_of_one. cbn.
      rewrite Z.add_0_r. apply unclaimed_last0.
  - rewrite mint_transact.
    destruct (mint_failure c to amount w) eqn:Hm; [done|].
    apply mint_failure_None in Hm as (_ & _ & _ & Hcap & _).
    destruct (valid_tx_amount c to amount (or_introl Htx)) as [Hamount _].
    by apply consistent_minted.
  - rewrite setMinter_transact. repeat case_match; try done.
    destruct Hw. split; cbn; try done.
    + intros a. rewrite claims_of_app, claims_of_one. cbn.
      rewrite claimed_counts0. lia.
    + intros a. rewrite claims_of_app, claims_of_one. cbn.
      rewrite Z.add_0_r. apply unclaimed_last0.
  - rewrite transfer_transact. case_match eqn:Hle; [|done].
    apply Z.leb_le in Hle.
    destruct (valid_tx_amount c to amount (or_intror Htx)) as [Hamount _].
    by apply consistent_transferred.
Qed.

Lemma reachable_consistent w : reachable w -> consistent w.
Proof.
  induction 1 as [o m a f t w Hd | tx w _ IH Htx].
  - by eapply consistent_deploy.
  - by apply consistent_step.
Qed.

Lemma reachable_run txs w :
  reachable w -> forallb valid_txb txs = true -> reachable (run txs w).
Proof.
  revert w. induction txs as [|tx txs IH]; intros w Hw Hv; [done|].
  cbn in Hv. apply andb_true_iff in Hv as [Htx Hv].
  cbn. apply IH; [|done]. by apply reachable_step.
Qed.

Lemma reachable_genesis : reachable genesis.
Proof. by apply (reachable_deploy 1%N 100%N 1%N 100%N 200%N). Qed.

(** ** What a claim attempt does on a consistent state *)

Lemma consistent_guard_failure c w :
  consistent w ->
  guard_failure c w =
    if paused (faucet w) then Some FaucetPausedError
    else if timestamp c <? slot (lastClaimAt (faucet w)) (sender c) + COOLDOWN_TIME
    then Some CooldownActive
    else if MAX_CLAIM_AMOUNT <? slot (totalClaimed (faucet w)) (sender c) + FAUCET_AMOUNT
    then Some LifetimeLimitReached
    else None.
Proof.
  intros Hw. unfold guard_failure. rewrite (lock_free w Hw).
  destruct (paused (faucet w)); [done|].
  pose proof (last_is_timestamp w Hw (sender c)) as [_ Hlast].
  pose proof (claimed_capped w Hw (sender c)) as Hcap.
  pose proof MAX_TIMESTAMP_fits. pose proof MAX_CLAIM_AMOUNT_fits.
  pose proof FAUCET_AMOUNT_pos.
  repeat case_match; bool_to_prop; try done; lia.
Qed.

Lemma consistent_mint_failure c to amount w :
  consistent w -> 0 <= amount ->
  mint_failure c to amount w =
    if negb (sender c =? minter (ledger w))%N then Some OnlyMinter
    else if (to =? ZERO_ADDRESS)%N then Some ZeroAddress
    else if MAX_UINT256 <? _totalSupply (ledger w) + amount
    then Some ArithmeticPanic
    else if MAX_SUPPLY <? _totalSupply (ledger w) + amount
    then Some SupplyExceeded
    else None.
Proof.
  intros Hw Hamount. unfold mint_failure.
  pose proof (consistent_balance_le_supply w to Hw).
  pose proof (supply_capped w Hw). pose proof MAX_SUPPLY_fits.
  repeat case_match; bool_to_prop; try done; lia.
Qed.

(** The state a successful claim leaves, field by field. *)
Lemma claimed_fields c w :
  lastClaimAt (faucet (claimed c w)) =
    <[sender c := timestamp c]> (lastClaimAt (faucet w)) /\
  totalClaimed (faucet (claimed c w)) =
    <[sender c := slot (totalClaimed (faucet w)) (sender c) + FAUCET_AMOUNT]>
      (totalClaimed (faucet w)) /\
  _balances (ledger (claimed c w)) =
    <[sender c := slot (_balances (ledger w)) (sender c) + FAUCET_AMOUNT]>
      (_balances (ledger w)) /\
  _totalSupply (ledger (claimed c w)) = _totalSupply (ledger w) + FAUCET_AMOUNT /\
  events (claimed c w) =
    events w ++ [Transfer ZERO_ADDRESS (sender c) FAUCET_AMOUNT;
                 TokensClaimed (sender c) FAUCET_AMOUNT (timestamp c)] /\
  paused (faucet (claimed c w)) = paused (faucet w) /\
  admin (faucet (claimed c w)) = admin (faucet w) /\
  minter (ledger (claimed c w)) = minter (ledger w).
Proof. cbn. by rewrite <- app_assoc. Qed.

(** A claim goes through exactly when it ends in [claimed]. *)
Lemma requestTokens_success c w w' :
  transact (TokenFaucet.requestTokens c) w = (w', Success) ->
  w' = claimed c w /\ guard_failure c w = None /\
  mint_failure (mkCtx (this w) (timestamp c)) (sender c) FAUCET_AMOUNT w = None.
Proof.
  rewrite requestTokens_transact.
  destruct (guard_failure c w); [congruence|].
  destruct (mint_failure _ _ _ w); [congruence|].
  intros; by simplify_eq.
Qed.

Lemma transact_reverted m w w' e :
  transact m w = (w', Reverted e) -> w' = w.
Proof.
  unfold transact. destruct (m w) as [[?|?] ?]; intros; by simplify_eq.
Qed.

(** Neither counter of any account ever goes down. *)
Lemma step_counters_mono tx w a :
  slot (lastClaimAt (faucet w)) a <= slot (lastClaimAt (faucet (step tx w))) a /\
  slot (totalClaimed (faucet w)) a <= slot (totalClaimed (faucet (step tx w))) a.
Proof.
  destruct tx as [c [|v|to amount|m|to amount]]; unfold step;
    cbn [tx_ctx tx_call dispatch].
  - rewrite requestTokens_transact.
    destruct (guard_failure c w) eqn:Hg; [cbn; lia|].
    destruct (mint_failure _ _ _ w) eqn:Hm; [cbn; lia|].
    apply guard_failure_None in Hg as (_ & _ & _ & Hcool & _ & _).
    pose proof COOLDOWN_TIME_pos. pose proof FAUCET_AMOUNT_pos.
    cbn. rewrite !slot_insert. case_decide; subst; lia.
  - rewrite setPaused_transact. case_match; cbn; lia.
  - rewrite mint_transact. case_match; cbn; lia.
  - rewrite setMinter_transact. repeat case_match; cbn; lia.
  - rewrite transfer_transact. case_match; cbn; lia.
Qed.

Lemma run_cons tx txs w : run (tx :: txs) w = run txs (step tx w).
Proof. reflexivity. Qed.

Lemma run_counters_mono txs w a :
  slot (lastClaimAt (faucet w)) a <= slot (lastClaimAt (faucet (run txs w))) a /\
  slot (totalClaimed (faucet w)) a <= slot (totalClaimed (faucet (run txs w))) a.
Proof.
  revert w. induction txs as [|tx txs IH]; intros w; [cbn; lia|].
  rewrite run_cons. specialize (IH (step tx w)).
  pose proof (step_counters_mono tx w a). lia.
Qed.

Lemma mint_failure_kinds c to amount w e :
  mint_failure c to amount w = Some e ->
  e = OnlyMinter \/ e = ZeroAddress \/ e = SupplyExceeded \/ e = ArithmeticPanic.
Proof.
  unfold mint_failure. repeat case_match; intros; simplify_eq; auto.
Qed.

Lemma requestTokens_guard_error c w e :
  guard_failure c w = Some e ->
  transact (requestTokens c) w = (w, Reverted e).
Proof. intros H. by rewrite requestTokens_transact, H. Qed.

(** Outside the timestamps a chain produces: were [lastClaimAt] within
    [COOLDOWN_TIME] of [2^256], the cooldown test itself would abort on its
    checked addition. *)
Lemma requestTokens_cooldown_overflow c w :
  _status (faucet w) = false -> paused (faucet w) = false ->
  slot (lastClaimAt (faucet w)) (sender c) + COOLDOWN_TIME > MAX_UINT256 ->
  transact (requestTokens c) w = (w, Reverted ArithmeticPanic).
Proof.
  intros Hs Hp Hover. apply requestTokens_guard_error.
  unfold guard_failure. rewrite Hs, Hp.
  assert ((slot (lastClaimAt (faucet w)) (sender c) + COOLDOWN_TIME <=? MAX_UINT256)
          = false) as -> by (apply Z.leb_gt; lia).
  done.
Qed.

(** ** The scenarios are reachable *)

Lemma reachable_unwired : reachable unwired.
Proof. by apply (reachable_deploy 1%N 5%N 1%N 100%N 200%N). Qed.

Lemma reachable_exhausted : reachable exhausted.
Proof. apply reachable_run; [apply reachable_genesis | by vm_compute]. Qed.

Lemma reachable_ten_claims : reachable (run (ten_claims 7%N) genesis).
Proof. apply reachable_run; [apply reachable_genesis | by vm_compute]. Qed.

(** ** Lifetime quota *)

Lemma consistent_claim_count w a :
  consistent w ->
  0 <= claims_of a (events w) <= 10 /\
  slot (totalClaimed (faucet w)) a = claims_of a (events w) * FAUCET_AMOUNT.
Proof.
  intros Hw. pose proof (claimed_counts w Hw a) as Hn.
  pose proof (claimed_capped w Hw a) as Hcap.
  pose proof (claims_of_nonneg a (events w)).
  rewrite Hn in Hcap. split; [|done].
  change MAX_CLAIM_AMOUNT with (10 * 100000000000000000000) in Hcap.
  change FAUCET_AMOUNT with 100000000000000000000 in Hcap. lia.
Qed.

Lemma consistent_lifetime_tests w a :
  consistent w ->
  (MAX_CLAIM_AMOUNT <=? slot (totalClaimed (faucet w)) a) =
  negb (slot (totalClaimed (faucet w)) a + FAUCET_AMOUNT <=? MAX_CLAIM_AMOUNT).
Proof.
  intros Hw. destruct (consistent_claim_count w a Hw) as [Hk ->].
  change MAX_CLAIM_AMOUNT with (10 * 100000000000000000000).
  change FAUCET_AMOUNT with 100000000000000000000.
  destruct (Z.leb_spec (10 * 100000000000000000000)
              (claims_of a (events w) * 100000000000000000000));
    symmetry; [apply negb_true_iff, Z.leb_gt | apply negb_false_iff, Z.leb_le];
    lia.
Qed.

(** ** C1 *)

(** C1, as stated, fails: once the whole supply is issued, [canClaim]
    still answers true for a newcomer whose [requestTokens] is rejected by
    the ledger. *)
Lemma C1_counterexample :
  reachable exhausted /\
  view (canClaim (mkCtx 7%N 950400) 7%N) exhausted = Ok true /\
  transact (requestTokens (mkCtx 7%N 950400)) exhausted =
    (exhausted, Reverted SupplyExceeded).
Proof.
  split; [apply reachable_exhausted|]. by vm_compute.
Qed.

(** C1 (amended): on every reachable state and at every time,
    [requestTokens] by [A] succeeds if and only if [canClaim A] returns true
    and the ledger accepts [mint(A, FAUCET_AMOUNT)] from the faucet;
    [canClaim A] returns false exactly when [requestTokens] fails on one of
    its own three conditions; [canClaim] always returns; and the read-only
    lifetime test ([totalClaimed >= MAX_CLAIM_AMOUNT]) never disagrees with
    the mutating one ([totalClaimed + FAUCET_AMOUNT > MAX_CLAIM_AMOUNT]). *)
Theorem C1_canClaim_matches_checks w A x t :
  reachable w ->
  (outcome (requestTokens (mkCtx A t)) w = Success <->
     view (canClaim (mkCtx x t) A) w = Ok true /\
     outcome (Token.mint (mkCtx (this w) t) A FAUCET_AMOUNT) w = Success) /\
  (view (canClaim (mkCtx x t) A) w = Ok false <->
     outcome (requestTokens (mkCtx A t)) w = Reverted FaucetPausedError \/
     outcome (requestTokens (mkCtx A t)) w = Reverted CooldownActive \/
     outcome (requestTokens (mkCtx A t)) w = Reverted LifetimeLimitReached) /\
  (exists b, view (canClaim (mkCtx x t) A) w = Ok b) /\
  (MAX_CLAIM_AMOUNT <=? slot (totalClaimed (faucet w)) A) =
    negb (slot (totalClaimed (faucet w)) A + FAUCET_AMOUNT <=? MAX_CLAIM_AMOUNT).
Proof.
  intros Hr. pose proof (reachable_consistent w Hr) as Hw.
  pose proof (consistent_lifetime_tests w A Hw) as Htests.
  pose proof (last_is_timestamp w Hw A) as [_ Hlast].
  pose proof MAX_TIMESTAMP_fits as Hfit.
  assert ((slot (lastClaimAt (faucet w)) A + COOLDOWN_TIME <=? MAX_UINT256) = true)
    as Hsum by (apply Z.leb_le; lia).
  unfold outcome, view.
  rewrite requestTokens_transact, mint_transact, canClaim_run,
    (consistent_guard_failure _ _ Hw).
  cbn [sender timestamp fst snd].
  rewrite Hsum, Htests, <- Z.ltb_antisym. cbn [negb].
  destruct (paused (faucet w));
    destruct (t <? slot (lastClaimAt (faucet w)) A + COOLDOWN_TIME);
    destruct (MAX_CLAIM_AMOUNT <? slot (totalClaimed (faucet w)) A + FAUCET_AMOUNT);
    destruct (mint_failure _ A FAUCET_AMOUNT w) as [e|] eqn:Hm; cbn.
  all: repeat split; intros; destruct_and?; destruct_or?; try done; eauto.
  all: apply mint_failure_kinds in Hm; destruct_or?; by simplify_eq.
Qed.

Lemma C1_witness :
  reachable genesis /\
  (outcome (requestTokens (mkCtx 7%N 86400)) genesis = Success <->
     view (canClaim (mkCtx 7%N 86400) 7%N) genesis = Ok true /\
     outcome (Token.mint (mkCtx (this genesis) 86400) 7%N FAUCET_AMOUNT) genesis
       = Success).
Proof.
  split; [exact reachable_genesis|].
  exact (proj1 (C1_canClaim_matches_checks genesis 7%N 7%N 86400 reachable_genesis)).
Defined.

(** ** C2 *)

(** C2: when [requestTokens] fails, for whatever reason, the state after
    the call is the state before it: the claim record, the balances, the
    total supply and the event log (so no [TokensClaimed] is emitted); this
    includes a failure inside the nested [Token.mint], which the call only
    reaches after it assigned both counters. *)
Theorem C2_failed_claim_changes_nothing c w w' e :
  transact (requestTokens c) w = (w', Reverted e) ->
  lastClaimAt (faucet w') = lastClaimAt (faucet w) /\
  totalClaimed (faucet w') = totalClaimed (faucet w) /\
  _balances (ledger w') = _balances (ledger w) /\
  _totalSupply (ledger w') = _totalSupply (ledger w) /\
  events w' = events w /\
  w' = w /\
  (guard_failure c w = None ->
     exists mid, requestTokens c w = (Err e, mid) /\
       slot (lastClaimAt (faucet mid)) (sender c) = timestamp c /\
       slot (totalClaimed (faucet mid)) (sender c) =
         slot (totalClaimed (faucet w)) (sender c) + FAUCET_AMOUNT).
Proof.
  intros H. pose proof (transact_reverted _ _ _ _ H) as ->.
  repeat split. intros Hg.
  rewrite requestTokens_transact, Hg in H.
  destruct (mint_failure _ _ _ w) as [e'|] eqn:Hm; [|done]. simplify_eq.
  destruct (requestTokens_aborts_in_mint c w e Hg Hm) as (mid & Hrun & Hl & Ht).
  exists mid. rewrite Hl, Ht, !slot_insert_eq. done.
Qed.

(** The ledger rejects the faucet of [unwired], which is not its minter;
    the counters the call had assigned by then are discarded. *)
Lemma C2_witness :
  transact (requestTokens (mkCtx 7%N 86400)) unwired =
    (unwired, Reverted OnlyMinter) /\
  events unwired = events unwired /\
  exists mid, requestTokens (mkCtx 7%N 86400) unwired = (Err OnlyMinter, mid) /\
    slot (lastClaimAt (faucet mid)) 7%N = 86400.
Proof.
  assert (transact (requestTokens (mkCtx 7%N 86400)) unwired =
            (unwired, Reverted OnlyMinter)) as H by (by vm_compute).
  destruct (C2_failed_claim_changes_nothing _ _ _ _ H)
    as (_ & _ & _ & _ & Hev & _ & Hmid).
  split; [exact H|]. split; [exact Hev|].
  destruct (Hmid eq_refl) as (mid & Hrun & Hl & _).
  exists mid. split; [exact Hrun | exact Hl].
Defined.

(** ** C3 *)

(** C3: on every reachable state, [totalClaimed A <= MAX_CLAIM_AMOUNT] for
    every account [A]. *)
Theorem C3_totalClaimed_capped w A :
  reachable w -> slot (totalClaimed (faucet w)) A <= MAX_CLAIM_AMOUNT.
Proof.
  intros Hr. apply claimed_capped. by apply reachable_consistent.
Qed.

Lemma C3_witness :
  reachable (run (ten_claims 7%N) genesis) /\
  slot (totalClaimed (faucet (run (ten_claims 7%N) genesis))) 7%N <= MAX_CLAIM_AMOUNT.
Proof.
  split; [exact reachable_ten_claims|].
  exact (C3_totalClaimed_capped _ 7%N reachable_ten_claims).
Defined.

(** ** C4 *)

(** C4: a claim attempt tests paused, then cooldown, then the lifetime
    limit, and the first test that fails names the error: paused gives
    FaucetPaused whatever the cooldown and lifetime state; not paused and
    [now < lastClaimAt + COOLDOWN_TIME] gives CooldownActive whatever the
    lifetime state; neither, and
    [totalClaimed + FAUCET_AMOUNT > MAX_CLAIM_AMOUNT], gives
    LifetimeLimitReached. *)
Theorem C4_first_failing_check_wins w c :
  reachable w ->
  (paused (faucet w) = true ->
     transact (requestTokens c) w = (w, Reverted FaucetPausedError)) /\
  (paused (faucet w) = false ->
   timestamp c < slot (lastClaimAt (faucet w)) (sender c) + COOLDOWN_TIME ->
     transact (requestTokens c) w = (w, Reverted CooldownActive)) /\
  (paused (faucet w) = false ->
   slot (lastClaimAt (faucet w)) (sender c) + COOLDOWN_TIME <= timestamp c ->
   slot (totalClaimed (faucet w)) (sender c) + FAUCET_AMOUNT > MAX_CLAIM_AMOUNT ->
     transact (requestTokens c) w = (w, Reverted LifetimeLimitReached)).
Proof.
  intros Hr. pose proof (reachable_consistent w Hr) as Hw.
  pose proof (consistent_guard_failure c w Hw) as Hg.
  repeat split.
  - intros Hp. apply requestTokens_guard_error. by rewrite Hg, Hp.
  - intros Hp Hcool. apply requestTokens_guard_error. rewrite Hg, Hp.
    apply Z.ltb_lt in Hcool. by rewrite Hcool.
  - intros Hp Hcool Hlife. apply requestTokens_guard_error. rewrite Hg, Hp.
    apply Z.ltb_ge in Hcool. rewrite Hcool.
    assert ((MAX_CLAIM_AMOUNT <? slot (totalClaimed (faucet w)) (sender c) + FAUCET_AMOUNT) = true)
      as -> by (apply Z.ltb_lt; lia).
    done.
Qed.

(** The three rejections, each met on a reachable state: a paused faucet,
    an account one second after its claim, and an account that claimed ten
    times. *)
Lemma C4_witness :
  transact (requestTokens (mkCtx 7%N 86402)) (run [pause_tx] genesis) =
    (run [pause_tx] genesis, Reverted FaucetPausedError) /\
  transact (requestTokens (mkCtx 7%N 86401)) (run [claim_at 7%N 86400] genesis) =
    (run [claim_at 7%N 86400] genesis, Reverted CooldownActive) /\
  transact (requestTokens (mkCtx 7%N (11 * 86400))) (run (ten_claims 7%N) genesis) =
    (run (ten_claims 7%N) genesis, Reverted LifetimeLimitReached).
Proof.
  split; [|split].
  - refine (proj1 (C4_first_failing_check_wins _ (mkCtx 7%N 86402) _) _).
    + apply reachable_run; [apply reachable_genesis | reflexivity].
    + reflexivity.
  - refine (proj1 (proj2 (C4_first_failing_check_wins _ (mkCtx 7%N 86401) _)) _ _).
    + apply reachable_run; [apply reachable_genesis | reflexivity].
    + reflexivity.
    + vm_compute. reflexivity.
  - refine (proj2 (proj2 (C4_first_failing_check_wins _ (mkCtx 7%N (11 * 86400)) _)) _ _ _).
    + exact reachable_ten_claims.
    + vm_compute. reflexivity.
    + vm_compute. discriminate.
    + vm_compute. reflexivity.
Defined.

(** ** C5 *)

(** C5, as stated, fails: after the admin pauses the faucet, an attempt
    inside the cooldown window is rejected with FaucetPaused, not with
    CooldownActive. *)
Lemma C5_counterexample :
  transact (requestTokens (mkCtx 7%N 86400)) genesis =
    (run [claim_at 7%N 86400] genesis, Success) /\
  86402 < 86400 + COOLDOWN_TIME /\
  transact (requestTokens (mkCtx 7%N 86402))
           (run [claim_at 7%N 86400; pause_tx] genesis) =
    (run [claim_at 7%N 86400; pause_tx] genesis, Reverted FaucetPausedError) /\
  FaucetPausedError <> CooldownActive.
Proof. by vm_compute. Qed.

(** C5 (amended): after a successful [requestTokens] by [A] at time [T],
    [lastClaimAt A = T], [totalClaimed A] and the token balance of [A] are
    each increased by exactly [FAUCET_AMOUNT], and
    [TokensClaimed (A, FAUCET_AMOUNT, T)] is emitted; whatever happens next,
    an attempt by [A] at a time strictly before [T + COOLDOWN_TIME] fails,
    with FaucetPaused if the faucet is paused at that moment and with
    CooldownActive otherwise; and, as long as [A] has not claimed again, an
    attempt at exactly [T + COOLDOWN_TIME] is not rejected with
    CooldownActive. *)
Theorem C5_successful_claim w A T w1 :
  reachable w -> is_timestamp T ->
  transact (requestTokens (mkCtx A T)) w = (w1, Success) ->
  slot (lastClaimAt (faucet w1)) A = T /\
  slot (totalClaimed (faucet w1)) A = slot (totalClaimed (faucet w)) A + FAUCET_AMOUNT /\
  slot (_balances (ledger w1)) A = slot (_balances (ledger w)) A + FAUCET_AMOUNT /\
  events w1 = events w ++ [Transfer ZERO_ADDRESS A FAUCET_AMOUNT;
                           TokensClaimed A FAUCET_AMOUNT T] /\
  (forall txs t, forallb valid_txb txs = true -> t < T + COOLDOWN_TIME ->
     transact (requestTokens (mkCtx A t)) (run txs w1) =
       (run txs w1,
        Reverted (if paused (faucet (run txs w1)) then FaucetPausedError
                  else CooldownActive))) /\
  (forall txs, forallb valid_txb txs = true ->
     slot (lastClaimAt (faucet (run txs w1))) A = T ->
     outcome (requestTokens (mkCtx A (T + COOLDOWN_TIME))) (run txs w1)
       <> Reverted CooldownActive).
Proof.
  intros Hr HT Hok.
  assert (reachable w1) as Hr1.
  { replace w1 with (step (claim_at A T) w).
    - apply reachable_step; [done|].
      unfold valid_tx, valid_txb, is_timestampb. cbn.
      destruct HT. rewrite andb_true_r. apply andb_true_iff.
      split; by apply Z.leb_le.
    - unfold step, claim_at. cbn. by rewrite Hok. }
  apply requestTokens_success in Hok as (-> & _ & _).
  destruct (claimed_fields (mkCtx A T) w)
    as (Hl & Ht & Hb & _ & He & _). cbn [sender timestamp] in *.
  rewrite Hl, Ht, Hb, He, !slot_insert_eq. repeat split.
  - intros txs t Hv Hlt.
    set (w2 := run txs (claimed (mkCtx A T) w)).
    assert (consistent w2) as Hw2
      by by apply reachable_consistent, reachable_run.
    apply requestTokens_guard_error.
    rewrite (consistent_guard_failure _ _ Hw2). cbn [sender timestamp].
    destruct (paused (faucet w2)); [done|].
    pose proof (proj1 (run_counters_mono txs (claimed (mkCtx A T) w) A)) as Hm.
    rewrite Hl, slot_insert_eq in Hm. fold w2 in Hm.
    assert ((t <? slot (lastClaimAt (faucet w2)) A + COOLDOWN_TIME) = true)
      as -> by (apply Z.ltb_lt; lia).
    done.
  - intros txs Hv Hsame.
    set (w2 := run txs (claimed (mkCtx A T) w)) in *.
    assert (consistent w2) as Hw2
      by by apply reachable_consistent, reachable_run.
    unfold outcome. rewrite requestTokens_transact.
    rewrite (consistent_guard_failure _ _ Hw2). cbn [sender timestamp].
    rewrite Hsame, Z.ltb_irrefl.
    destruct (paused (faucet w2)); [done|].
    destruct (_ <? _); [done|].
    destruct (mint_failure _ _ _ w2) as [e|] eqn:Hmf; [|done].
    apply mint_failure_kinds in Hmf. cbn. destruct_or?; by simplify_eq.
Qed.

Lemma C5_witness :
  reachable genesis /\ is_timestamp 86400 /\
  slot (lastClaimAt (faucet (run [claim_at 7%N 86400] genesis))) 7%N = 86400 /\
  transact (requestTokens (mkCtx 7%N 86401)) (run [claim_at 7%N 86400] genesis) =
    (run [claim_at 7%N 86400] genesis, Reverted CooldownActive) /\
  outcome (requestTokens (mkCtx 7%N (86400 + COOLDOWN_TIME)))
          (run [claim_at 7%N 86400] genesis) <> Reverted CooldownActive.
Proof.
  assert (is_timestamp 86400) as HT by (by vm_compute).
  assert (transact (requestTokens (mkCtx 7%N 86400)) genesis =
            (run [claim_at 7%N 86400] genesis, Success)) as Hok by (by vm_compute).
  destruct (C5_successful_claim genesis 7%N 86400 _ reachable_genesis HT Hok)
    as (Hl & _ & _ & _ & Hcool & Hexact).
  split; [exact reachable_genesis|]. split; [exact HT|]. split; [exact Hl|].
  split.
  - exact (Hcool [] 86401 eq_refl eq_refl).
  - exact (Hexact [] eq_refl Hl).
Defined.

(** ** C6 *)

(** C6, as stated, fails: with one base unit issued, the minter asking
    for [2^256 - 1] more is rejected by the arithmetic check of
    [totalSupply() + amount], not with SupplyExceeded. *)
Lemma C6_counterexample :
  let w := run [first_unit] unwired in
  reachable w /\
  sender (mkCtx 5%N 0) = minter (ledger w) /\ 7%N <> ZERO_ADDRESS /\
  is_uint256 MAX_UINT256 /\
  _totalSupply (ledger w) + MAX_UINT256 > MAX_SUPPLY /\
  transact (Token.mint (mkCtx 5%N 0) 7%N MAX_UINT256) w = (w, Reverted ArithmeticPanic) /\
  ArithmeticPanic <> SupplyExceeded.
Proof.
  split; [apply reachable_run; [apply reachable_unwired | reflexivity]|].
  by vm_compute.
Qed.

(** C6 (amended): [mint(to, amount)] fails with Unauthorized if the caller
    is not the minter, else with ZeroAddress if [to] is the null account,
    else with an arithmetic panic if [totalSupply + amount] does not fit in
    256 bits, else with SupplyExceeded if [totalSupply + amount >
    MAX_SUPPLY]; otherwise it succeeds, credits [to] by [amount], increases
    the total supply by [amount] and emits [Transfer (0, to, amount)]; on
    every reachable state the balances sum up to the total supply, which is
    at most [MAX_SUPPLY]. *)
Theorem C6_mint w c to amount :
  reachable w -> is_uint256 amount ->
  (sender c <> minter (ledger w) ->
     transact (Token.mint c to amount) w = (w, Reverted OnlyMinter)) /\
  (sender c = minter (ledger w) -> to = ZERO_ADDRESS ->
     transact (Token.mint c to amount) w = (w, Reverted ZeroAddress)) /\
  (sender c = minter (ledger w) -> to <> ZERO_ADDRESS ->
   _totalSupply (ledger w) + amount > MAX_UINT256 ->
     transact (Token.mint c to amount) w = (w, Reverted ArithmeticPanic)) /\
  (sender c = minter (ledger w) -> to <> ZERO_ADDRESS ->
   _totalSupply (ledger w) + amount <= MAX_UINT256 ->
   _totalSupply (ledger w) + amount > MAX_SUPPLY ->
     transact (Token.mint c to amount) w = (w, Reverted SupplyExceeded)) /\
  (sender c = minter (ledger w) -> to <> ZERO_ADDRESS ->
   _totalSupply (ledger w) + amount <= MAX_SUPPLY ->
     exists w', transact (Token.mint c to amount) w = (w', Success) /\
       slot (_balances (ledger w')) to = slot (_balances (ledger w)) to + amount /\
       (forall a, a <> to ->
          slot (_balances (ledger w')) a = slot (_balances (ledger w)) a) /\
       _totalSupply (ledger w') = _totalSupply (ledger w) + amount /\
       events w' = events w ++ [Transfer ZERO_ADDRESS to amount] /\
       faucet w' = faucet w) /\
  sum_balances (_balances (ledger w)) = _totalSupply (ledger w) /\
  sum_balances (_balances (ledger w)) <= MAX_SUPPLY.
Proof.
  intros Hr [Hamount _]. pose proof (reachable_consistent w Hr) as Hw.
  pose proof (consistent_mint_failure c to amount w Hw Hamount) as Hm.
  rewrite mint_transact, Hm.
  repeat split.
  - intros Hs. apply N.eqb_neq in Hs. by rewrite Hs.
  - intros Hs Hto. apply N.eqb_eq in Hs, Hto. by rewrite Hs, Hto.
  - intros Hs Hto Hover. apply N.eqb_eq in Hs. apply N.eqb_neq in Hto.
    rewrite Hs, Hto. cbn [negb].
    assert ((MAX_UINT256 <? _totalSupply (ledger w) + amount) = true)
      as -> by (apply Z.ltb_lt; lia).
    done.
  - intros Hs Hto Hfit Hover. apply N.eqb_eq in Hs. apply N.eqb_neq in Hto.
    rewrite Hs, Hto. cbn [negb].
    apply Z.ltb_ge in Hfit. rewrite Hfit.
    assert ((MAX_SUPPLY <? _totalSupply (ledger w) + amount) = true)
      as -> by (apply Z.ltb_lt; lia).
    done.
  - intros Hs Hto Hcap. apply N.eqb_eq in Hs. apply N.eqb_neq in Hto.
    rewrite Hs, Hto. cbn [negb].
    pose proof MAX_SUPPLY_fits.
    assert ((MAX_UINT256 <? _totalSupply (ledger w) + amount) = false)
      as -> by (apply Z.ltb_ge; lia).
    assert ((MAX_SUPPLY <? _totalSupply (ledger w) + amount) = false)
      as -> by (apply Z.ltb_ge; lia).
    eexists. split; [reflexivity|]. cbn.
    rewrite slot_insert_eq. repeat split.
    intros a Ha. by rewrite slot_insert_ne.
  - apply (supply_is_sum w Hw).
  - rewrite (supply_is_sum w Hw). apply (supply_capped w Hw).
Qed.

Lemma C6_witness :
  reachable unwired /\ is_uint256 1 /\
  (exists w', transact (Token.mint (mkCtx 5%N 0) 7%N 1) unwired = (w', Success) /\
     slot (_balances (ledger w')) 7%N = slot (_balances (ledger unwired)) 7%N + 1) /\
  transact (Token.mint (mkCtx 6%N 0) 7%N 1) unwired = (unwired, Reverted OnlyMinter) /\
  transact (Token.mint (mkCtx 5%N 0) 0%N 1) unwired = (unwired, Reverted ZeroAddress) /\
  transact (Token.mint (mkCtx 5%N 0) 7%N (MAX_SUPPLY + 1)) unwired
    = (unwired, Reverted SupplyExceeded) /\
  transact (Token.mint (mkCtx 5%N 0) 7%N MAX_UINT256) (run [first_unit] unwired)
    = (run [first_unit] unwired, Reverted ArithmeticPanic).
Proof.
  assert (is_uint256 1) as H1 by (by vm_compute).
  assert (is_uint256 (MAX_SUPPLY + 1)) as H2 by (by vm_compute).
  assert (is_uint256 MAX_UINT256) as H3 by (by vm_compute).
  assert (reachable (run [first_unit] unwired)) as Hr
    by (apply reachable_run; [exact reachable_unwired | reflexivity]).
  split; [exact reachable_unwired|]. split; [exact H1|].
  split; [|split; [|split; [|split]]].
  - destruct (C6_mint unwired (mkCtx 5%N 0) 7%N 1 reachable_unwired H1)
      as (_ & _ & _ & _ & Hok & _).
    destruct Hok as (w' & Hrun & Hbal & _); [reflexivity | discriminate | by vm_compute |].
    exists w'. split; [exact Hrun | exact Hbal].
  - refine (proj1 (C6_mint unwired (mkCtx 6%N 0) 7%N 1 reachable_unwired H1) _).
    discriminate.
  - refine (proj1 (proj2 (C6_mint unwired (mkCtx 5%N 0) 0%N 1 reachable_unwired H1)) _ _);
      reflexivity.
  - refine (proj1 (proj2 (proj2 (proj2
      (C6_mint unwired (mkCtx 5%N 0) 7%N (MAX_SUPPLY + 1) reachable_unwired H2)))) _ _ _ _).
    + reflexivity.
    + discriminate.
    + by vm_compute.
    + by vm_compute.
  - refine (proj1 (proj2 (proj2
      (C6_mint _ (mkCtx 5%N 0) 7%N MAX_UINT256 Hr H3))) _ _ _).
    + reflexivity.
    + discriminate.
    + by vm_compute.
Defined.

(** ** C7 *)

(** C7: on every reachable state [remainingAllowance A] returns
    [max (0, MAX_CLAIM_AMOUNT - totalClaimed A)] without failing and leaves
    the state as it is; it returns [MAX_CLAIM_AMOUNT] for an account that
    never claimed, [FAUCET_AMOUNT] less after each successful claim, and 0
    once [totalClaimed A] has reached [MAX_CLAIM_AMOUNT]. *)
Theorem C7_remainingAllowance w A :
  reachable w ->
  remainingAllowance A w =
    (Ok (Z.max 0 (MAX_CLAIM_AMOUNT - slot (totalClaimed (faucet w)) A)), w) /\
  (claims_of A (events w) = 0 ->
     view (remainingAllowance A) w = Ok MAX_CLAIM_AMOUNT) /\
  (forall t w1 r,
     transact (requestTokens (mkCtx A t)) w = (w1, Success) ->
     view (remainingAllowance A) w = Ok r ->
     view (remainingAllowance A) w1 = Ok (r - FAUCET_AMOUNT)) /\
  (slot (totalClaimed (faucet w)) A = MAX_CLAIM_AMOUNT ->
     view (remainingAllowance A) w = Ok 0).
Proof.
  intros Hr. pose proof (reachable_consistent w Hr) as Hw.
  pose proof (claimed_capped w Hw A) as Hcap.
  assert (remainingAllowance A w =
    (Ok (Z.max 0 (MAX_CLAIM_AMOUNT - slot (totalClaimed (faucet w)) A)), w)) as Hrun.
  { rewrite remainingAllowance_run.
    apply Z.leb_le in Hcap as Hcapb. rewrite Hcapb.
    destruct (Z.ltb_spec 0 (MAX_CLAIM_AMOUNT - slot (totalClaimed (faucet w)) A));
      do 2 f_equal; lia. }
  unfold view. rewrite Hrun. cbn [fst]. repeat split.
  - intros Hfresh. rewrite (claimed_counts w Hw A), Hfresh. done.
  - intros t w1 r Hok [= <-].
    apply requestTokens_success in Hok as (-> & Hg & _).
    apply guard_failure_None in Hg as (_ & _ & _ & _ & _ & Hlife).
    cbn [sender] in Hlife.
    rewrite remainingAllowance_run. cbn [fst].
    destruct (claimed_fields (mkCtx A t) w) as (_ & -> & _).
    cbn [sender]. rewrite slot_insert_eq.
    apply Z.leb_le in Hlife as Hlifeb. rewrite Hlifeb.
    pose proof FAUCET_AMOUNT_pos.
    destruct (Z.ltb_spec 0
      (MAX_CLAIM_AMOUNT - (slot (totalClaimed (faucet w)) A + FAUCET_AMOUNT)));
      f_equal; lia.
  - intros ->. by rewrite Z.sub_diag.
Qed.

Lemma C7_witness :
  reachable genesis /\
  view (remainingAllowance 7%N) genesis = Ok MAX_CLAIM_AMOUNT /\
  view (remainingAllowance 7%N) (run [claim_at 7%N 86400] genesis) =
    Ok (MAX_CLAIM_AMOUNT - FAUCET_AMOUNT) /\
  view (remainingAllowance 7%N) (run (ten_claims 7%N) genesis) = Ok 0.
Proof.
  destruct (C7_remainingAllowance genesis 7%N reachable_genesis)
    as (_ & Hfresh & Hdec & _).
  destruct (C7_remainingAllowance _ 7%N reachable_ten_claims)
    as (_ & _ & _ & Hfull).
  split; [exact reachable_genesis|]. split; [exact (Hfresh eq_refl)|].
  split.
  - refine (Hdec 86400 _ MAX_CLAIM_AMOUNT _ (Hfresh eq_refl)). by vm_compute.
  - apply Hfull. by vm_compute.
Defined.

(** ** C8 *)

(** C8: [setPaused v] by the stored admin overwrites the flag with [v] and
    emits [FaucetPaused v], whether or not [v] is the current flag, and
    touches nothing else; by any other account it fails with Unauthorized
    and changes nothing; so the admin calling [setPaused true] twice leaves
    [isPaused () = true] and two events in the log. *)
Theorem C8_setPaused w c v :
  (sender c = admin (faucet w) ->
     exists w', transact (setPaused c v) w = (w', Success) /\
       view isPaused w' = Ok v /\
       events w' = events w ++ [FaucetPaused v] /\
       admin (faucet w') = admin (faucet w) /\
       lastClaimAt (faucet w') = lastClaimAt (faucet w) /\
       totalClaimed (faucet w') = totalClaimed (faucet w) /\
       ledger w' = ledger w) /\
  (sender c <> admin (faucet w) ->
     transact (setPaused c v) w = (w, Reverted OnlyAdmin)) /\
  (sender c = admin (faucet w) ->
     view isPaused (after (setPaused c true) (after (setPaused c true) w))
       = Ok true /\
     events (after (setPaused c true) (after (setPaused c true) w))
       = events w ++ [FaucetPaused true; FaucetPaused true]).
Proof.
  split; [|split].
  - intros Ha. apply N.eqb_eq in Ha. rewrite setPaused_transact, Ha.
    eexists. split; [reflexivity|]. done.
  - intros Ha. apply N.eqb_neq in Ha. by rewrite setPaused_transact, Ha.
  - intros Ha. apply N.eqb_eq in Ha. unfold after.
    rewrite (setPaused_transact c true w), Ha. cbn [fst].
    rewrite setPaused_transact. cbn [faucet set_faucet push_event admin set_paused].
    rewrite Ha. cbn. by rewrite <- app_assoc.
Qed.

Lemma C8_witness :
  (exists w', transact (setPaused (mkCtx 1%N 0) false) genesis = (w', Success) /\
     view isPaused w' = Ok false /\
     events w' = events genesis ++ [FaucetPaused false]) /\
  transact (setPaused (mkCtx 7%N 0) true) genesis = (genesis, Reverted OnlyAdmin) /\
  events (after (setPaused (mkCtx 1%N 0) true)
            (after (setPaused (mkCtx 1%N 0) true) genesis))
    = events genesis ++ [FaucetPaused true; FaucetPaused true].
Proof.
  split; [|split].
  - destruct (proj1 (C8_setPaused genesis (mkCtx 1%N 0) false) eq_refl)
      as (w' & Hrun & Hflag & Hev & _).
    exists w'. split; [exact Hrun|]. split; [exact Hflag | exact Hev].
  - refine (proj1 (proj2 (C8_setPaused genesis (mkCtx 7%N 0) true)) _).
    discriminate.
  - exact (proj2 (proj2 (proj2 (C8_setPaused genesis (mkCtx 1%N 0) true)) eq_refl)).
Defined.

(** ** C9 *)

(** C9: a successful claim of [A] strictly increases [lastClaimAt A]; any
    other transaction (a failed claim, a claim of another account, a pause,
    a mint, a change of minter, a transfer) leaves [lastClaimAt A] and [totalClaimed A] as
    they are; [totalClaimed A] never decreases along any sequence of
    transactions; both are zero right after deployment and stay zero for an
    account that never claimed. *)
Theorem C9_claim_record w A :
  (forall tx, claims_in A tx w ->
     slot (lastClaimAt (faucet w)) A < slot (lastClaimAt (faucet (step tx w))) A) /\
  (forall tx, ~ claims_in A tx w ->
     slot (lastClaimAt (faucet (step tx w))) A = slot (lastClaimAt (faucet w)) A /\
     slot (totalClaimed (faucet (step tx w))) A = slot (totalClaimed (faucet w)) A) /\
  (forall txs,
     slot (totalClaimed (faucet w)) A <= slot (totalClaimed (faucet (run txs w))) A) /\
  (forall o m a f t w0, deploy o m a f t = Ok w0 ->
     slot (lastClaimAt (faucet w0)) A = 0 /\ slot (totalClaimed (faucet w0)) A = 0) /\
  (reachable w -> claims_of A (events w) = 0 ->
     slot (lastClaimAt (faucet w)) A = 0 /\ slot (totalClaimed (faucet w)) A = 0).
Proof.
  split; [|split; [|split; [|split]]].
  - intros [c call] (Hcall & Hsender & Hok). cbn in Hcall, Hsender. subst.
    unfold step, outcome in *. cbn [tx_ctx tx_call dispatch] in *.
    rewrite requestTokens_transact in *.
    destruct (guard_failure c w) eqn:Hg; [done|].
    destruct (mint_failure _ _ _ w) eqn:Hm; [done|].
    apply guard_failure_None in Hg as (_ & _ & _ & Hcool & _ & _).
    pose proof COOLDOWN_TIME_pos. cbn. rewrite slot_insert_eq. lia.
  - intros [c call] Hnot. unfold claims_in, outcome in Hnot.
    unfold step. cbn [tx_ctx tx_call dispatch] in *.
    destruct call as [|v|to amount|m|to amount]; cbn [dispatch] in *.
    + rewrite requestTokens_transact in *.
      destruct (guard_failure c w) eqn:Hg; [done|].
      destruct (mint_failure _ _ _ w) eqn:Hm; [done|].
      cbn. rewrite !slot_insert.
      case_decide; [|done]. destruct Hnot. done.
    + rewrite setPaused_transact. by case_match.
    + rewrite mint_transact. by case_match.
    + rewrite setMinter_transact. by repeat case_match.
    + rewrite transfer_transact. by case_match.
  - intros txs. apply run_counters_mono.
  - intros o m a f t w0. unfold deploy, Token.constructor, TokenFaucet.constructor.
    repeat case_match; intros; simplify_eq. cbn. by rewrite slot_empty.
  - intros Hr Hzero. pose proof (reachable_consistent w Hr) as Hw. split.
    + by apply (unclaimed_last w Hw).
    + rewrite (claimed_counts w Hw), Hzero. done.
Qed.

Lemma C9_witness :
  slot (lastClaimAt (faucet genesis)) 7%N
    < slot (lastClaimAt (faucet (step (claim_at 7%N 86400) genesis))) 7%N /\
  slot (lastClaimAt (faucet (step (claim_at 8%N 86400) genesis))) 7%N
    = slot (lastClaimAt (faucet genesis)) 7%N /\
  slot (totalClaimed (faucet (step (claim_at 7%N 86400) genesis))) 8%N = 0.
Proof.
  split; [|split].
  - refine (proj1 (C9_claim_record genesis 7%N) (claim_at 7%N 86400) _).
    by vm_compute.
  - refine (proj1 (proj1 (proj2 (C9_claim_record genesis 7%N)) (claim_at 8%N 86400) _)).
    intros (_ & Hs & _). discriminate Hs.
  - refine (proj2 (proj2 (proj2 (proj2 (proj2
      (C9_claim_record (step (claim_at 7%N 86400) genesis) 8%N)))) _ _)).
    + apply reachable_step; [exact reachable_genesis | reflexivity].
    + reflexivity.
Defined.

(** ** C10 *)

(** C10: on every reachable state [totalClaimed A] is [k * FAUCET_AMOUNT]
    for some [k] between 0 and 10, namely the number of claims of [A] in
    the log; hence the read-only lifetime test and the mutating one give
    the same verdict. *)
Theorem C10_totalClaimed_multiple w A :
  reachable w ->
  (exists k, 0 <= k <= 10 /\ slot (totalClaimed (faucet w)) A = k * FAUCET_AMOUNT) /\
  slot (totalClaimed (faucet w)) A = claims_of A (events w) * FAUCET_AMOUNT /\
  ((MAX_CLAIM_AMOUNT <=? slot (totalClaimed (faucet w)) A) = true <->
   (slot (totalClaimed (faucet w)) A + FAUCET_AMOUNT <=? MAX_CLAIM_AMOUNT) = false).
Proof.
  intros Hr. pose proof (reachable_consistent w Hr) as Hw.
  destruct (consistent_claim_count w A Hw) as [Hk Hn].
  split; [|split].
  - exists (claims_of A (events w)). done.
  - done.
  - rewrite (consistent_lifetime_tests w A Hw). apply negb_true_iff.
Qed.

Lemma C10_witness :
  reachable (run (ten_claims 7%N) genesis) /\
  exists k, 0 <= k <= 10 /\
    slot (totalClaimed (faucet (run (ten_claims 7%N) genesis))) 7%N = k * FAUCET_AMOUNT.
Proof.
  split; [exact reachable_ten_claims|].
  exact (proj1 (C10_totalClaimed_multiple _ 7%N reachable_ten_claims)).
Defined.

(** * Further properties of the contracts and of the code around them *)

(** ** Induction over the reachable states, by the transaction that
    went through last *)

Lemma reachable_cases (P : World -> Prop) :
  (forall o m a f t w, deploy o m a f t = Ok w -> P w) ->
  (forall w c, reachable w -> P w -> is_timestamp (timestamp c) ->
     guard_failure c w = None ->
     mint_failure (mkCtx (this w) (timestamp c)) (sender c) FAUCET_AMOUNT w = None ->
     P (claimed c w)) ->
  (forall w c v, reachable w -> P w -> sender c = admin (faucet w) ->
     P (push_event (FaucetPaused v) (set_faucet (set_paused v) w))) ->
  (forall w c to amount, reachable w -> P w -> is_uint256 amount ->
     mint_failure c to amount w = None -> P (minted to amount w)) ->
  (forall w c m, reachable w -> P w -> sender c = _owner (ledger w) ->
     m <> ZERO_ADDRESS ->
     P (push_event (MinterChanged m) (set_ledger (set_minter m) w))) ->
  (forall w c to amount, reachable w -> P w -> is_uint256 amount ->
     amount <= slot (_balances (ledger w)) (sender c) ->
     P (transferred (sender c) to amount w)) ->
  forall w, reachable w -> P w.
Proof.
  intros Hdeploy Hclaim Hpause Hmint Hminter Htransfer w Hr.
  induction Hr as [o m a f t w Hd | tx w Hr IH Htx]; [by eapply Hdeploy|].
  pose proof (valid_tx_timestamp tx Htx) as Ht.
  destruct tx as [c [|v|to amount|m|to amount]]; unfold step;
    cbn [tx_ctx tx_call dispatch] in *.
  - rewrite requestTokens_transact.
    destruct (guard_failure c w) eqn:Hg; [done|].
    destruct (mint_failure _ _ _ w) eqn:Hm; [done|].
    by apply Hclaim.
  - rewrite setPaused_transact. case_match eqn:Ha; [|done].
    apply N.eqb_eq in Ha. by eapply Hpause.
  - rewrite mint_transact.
    destruct (mint_failure c to amount w) eqn:Hm; [done|].
    eapply Hmint; eauto. apply (valid_tx_amount c to amount). by left.
  - rewrite setMinter_transact.
    destruct (sender c =? _owner (ledger w))%N eqn:Ho; [|done].
    destruct (m =? ZERO_ADDRESS)%N eqn:Hz; [done|]. cbn.
    apply N.eqb_eq in Ho. apply N.eqb_neq in Hz. by eapply Hminter.
  - rewrite transfer_transact. case_match eqn:Hle; [|done].
    apply Z.leb_le in Hle. eapply Htransfer; eauto.
    apply (valid_tx_amount c to amount). by right.
Qed.

Lemma claims_total_app evs evs' :
  claims_total (evs ++ evs') = claims_total evs + claims_total evs'.
Proof. unfold claims_total. rewrite List.filter_app, length_app. lia. Qed.

Lemma claim_times_app a evs evs' :
  claim_times a (evs ++ evs') = claim_times a evs ++ claim_times a evs'.
Proof. unfold claim_times. apply flat_map_app. Qed.

Lemma last_cons (t0 : Z) ts d : List.last (t0 :: ts) d = List.last ts t0.
Proof.
  revert t0 d. induction ts as [|t1 ts IH]; intros t0 d; [done|].
  change (List.last (t0 :: t1 :: ts) d) with (List.last (t1 :: ts) d).
  by rewrite (IH t1 d), (IH t1 t0).
Qed.

Lemma spaced_from_snoc prev ts t :
  spaced_from prev (ts ++ [t]) <->
  spaced_from prev ts /\ List.last ts prev + COOLDOWN_TIME <= t.
Proof.
  revert prev. induction ts as [|t0 ts IH]; intros prev.
  - cbn. tauto.
  - change ((t0 :: ts) ++ [t]) with (t0 :: (ts ++ [t])).
    cbn [spaced_from]. rewrite IH, last_cons. tauto.
Qed.

Lemma list_last_snoc (ts : list Z) t d : List.last (ts ++ [t]) d = t.
Proof. apply last_last. Qed.

(** On a consistent state [canClaim] answers true exactly when none of the
    checks of [requestTokens] before the mint rejects. *)
Lemma consistent_canClaim w c user :
  consistent w ->
  canClaim c user w =
    (Ok (match guard_failure (mkCtx user (timestamp c)) w with
         | Some _ => false
         | None => true
         end), w).
Proof.
  intros Hw. rewrite canClaim_run, (consistent_guard_failure _ _ Hw).
  pose proof (last_is_timestamp w Hw user) as [_ Hlast].
  pose proof MAX_TIMESTAMP_fits as Hfit.
  assert ((slot (lastClaimAt (faucet w)) user + COOLDOWN_TIME <=? MAX_UINT256) = true)
    as -> by (apply Z.leb_le; lia).
  rewrite (consistent_lifetime_tests w user Hw), <- Z.ltb_antisym.
  cbn [sender timestamp negb]. by repeat case_match.
Qed.

(** On a consistent state the failures of a claim are failed [require]s. *)
Lemma requestTokens_failure_kinds w c w' e :
  reachable w ->
  transact (requestTokens c) w = (w', Reverted e) ->
  e = FaucetPausedError \/ e = CooldownActive \/ e = LifetimeLimitReached \/
  e = OnlyMinter \/ e = ZeroAddress \/ e = SupplyExceeded.
Proof.
  intros Hr. pose proof (reachable_consistent w Hr) as Hw.
  rewrite requestTokens_transact, (consistent_guard_failure _ _ Hw).
  rewrite (consistent_mint_failure _ _ _ _ Hw) by (by vm_compute).
  pose proof (supply_capped w Hw). pose proof MAX_SUPPLY_fits.
  assert (FAUCET_AMOUNT <= MAX_UINT256 - MAX_SUPPLY) by (by vm_compute).
  repeat case_match; intros; simplify_eq; bool_to_prop; auto 10; lia.
Qed.

(** ** Token.sol: the minter role *)

(** X1: on every reachable state the minter is not the null account:
    the constructor and [setMinter] both refuse it. *)
Theorem X1_minter_never_zero w :
  reachable w -> minter (ledger w) <> ZERO_ADDRESS.
Proof.
  revert w. apply reachable_cases; try done.
  intros o m a f t w. unfold deploy, Token.constructor, TokenFaucet.constructor.
  destruct (m =? ZERO_ADDRESS)%N eqn:Hm; [done|].
  destruct (t =? ZERO_ADDRESS)%N; [done|].
  intros [= <-]. cbn. by apply N.eqb_neq.
Qed.

Lemma X1_witness :
  reachable (step (mkTx (mkCtx 1%N 0) (SetMinter 9%N)) genesis) /\
  minter (ledger (step (mkTx (mkCtx 1%N 0) (SetMinter 9%N)) genesis)) <> ZERO_ADDRESS.
Proof.
  assert (reachable (step (mkTx (mkCtx 1%N 0) (SetMinter 9%N)) genesis)) as Hr
    by (apply reachable_step; [exact reachable_genesis | reflexivity]).
  split; [exact Hr | exact (X1_minter_never_zero _ Hr)].
Defined.

(** X2: [setMinter m] by the owner, with [m] not the null account, makes
    [m] the minter, emits [MinterChanged m] and touches neither balances,
    supply nor the faucet; from then on [mint] from any other account, the
    previous minter included, fails with "Only minter can mint tokens";
    with the null account it fails with "Minter cannot be zero address"
    and changes nothing. *)
Theorem X2_setMinter_moves_the_role w c m :
  sender c = _owner (ledger w) ->
  (m = ZERO_ADDRESS ->
     transact (Token.setMinter c m) w = (w, Reverted ZeroMinter)) /\
  (m <> ZERO_ADDRESS ->
     exists w', transact (Token.setMinter c m) w = (w', Success) /\
       minter (ledger w') = m /\
       events w' = events w ++ [MinterChanged m] /\
       _balances (ledger w') = _balances (ledger w) /\
       _totalSupply (ledger w') = _totalSupply (ledger w) /\
       faucet w' = faucet w /\
       forall c' to amount, sender c' <> m ->
         transact (Token.mint c' to amount) w' = (w', Reverted OnlyMinter)).
Proof.
  intros Ho. apply N.eqb_eq in Ho. rewrite setMinter_transact, Ho. cbn [negb].
  split.
  - intros ->. done.
  - intros Hm. apply N.eqb_neq in Hm. rewrite Hm.
    eexists. split; [reflexivity|]. cbn. repeat split.
    intros c' to amount Hc'. rewrite mint_transact. unfold mint_failure. cbn.
    apply N.eqb_neq in Hc'. by rewrite Hc'.
Qed.

Lemma X2_witness :
  transact (Token.setMinter (mkCtx 1%N 0) 0%N) genesis = (genesis, Reverted ZeroMinter) /\
  exists w', transact (Token.setMinter (mkCtx 1%N 0) 9%N) genesis = (w', Success) /\
    minter (ledger w') = 9%N /\
    transact (Token.mint (mkCtx 100%N 0) 7%N 1) w' = (w', Reverted OnlyMinter).
Proof.
  destruct (X2_setMinter_moves_the_role genesis (mkCtx 1%N 0) 0%N eq_refl)
    as [Hzero _].
  destruct (X2_setMinter_moves_the_role genesis (mkCtx 1%N 0) 9%N eq_refl)
    as [_ Hok].
  split; [exact (Hzero eq_refl)|].
  destruct Hok as (w' & Hrun & Hm & _ & _ & _ & _ & Hrevoked); [discriminate|].
  exists w'. split; [exact Hrun|]. split; [exact Hm|].
  apply Hrevoked. discriminate.
Defined.

(** X3: a faucet that is not the minter of its token never completes a
    claim: whenever its own checks pass ([canClaim] is true), the claim
    reverts with "Only minter can mint tokens". *)
Theorem X3_unwired_faucet_never_pays w c :
  reachable w -> this w <> minter (ledger w) ->
  outcome (requestTokens c) w <> Success /\
  (view (canClaim c (sender c)) w = Ok true ->
     transact (requestTokens c) w = (w, Reverted OnlyMinter)).
Proof.
  intros Hr Hne. pose proof (reachable_consistent w Hr) as Hw.
  apply N.eqb_neq in Hne.
  assert (mint_failure (mkCtx (this w) (timestamp c)) (sender c) FAUCET_AMOUNT w
          = Some OnlyMinter) as Hm
    by (unfold mint_failure; cbn; by rewrite Hne).
  unfold outcome. rewrite requestTokens_transact, Hm. split.
  - by destruct (guard_failure c w).
  - unfold view. rewrite (consistent_canClaim w c (sender c) Hw). cbn [fst].
    destruct c as [a t]. cbn [sender timestamp].
    by destruct (guard_failure (mkCtx a t) w).
Qed.

Lemma X3_witness :
  reachable unwired /\ this unwired <> minter (ledger unwired) /\
  transact (requestTokens (mkCtx 7%N 86400)) unwired = (unwired, Reverted OnlyMinter).
Proof.
  assert (this unwired <> minter (ledger unwired)) as Hne by discriminate.
  split; [exact reachable_unwired|]. split; [exact Hne|].
  exact (proj2 (X3_unwired_faucet_never_pays unwired (mkCtx 7%N 86400)
                  reachable_unwired Hne) eq_refl).
Defined.

(** ** TokenFaucet.sol: what no transaction changes *)

Lemma step_faucet_fixed tx w :
  admin (faucet (step tx w)) = admin (faucet w) /\
  token (faucet (step tx w)) = token (faucet w) /\
  this (step tx w) = this w.
Proof.
  destruct tx as [c [|v|to amount|m|to amount]]; unfold step;
    cbn [tx_ctx tx_call dispatch].
  - rewrite requestTokens_transact. by repeat case_match.
  - rewrite setPaused_transact. by case_match.
  - rewrite mint_transact. by case_match.
  - rewrite setMinter_transact. by repeat case_match.
  - rewrite transfer_transact. by case_match.
Qed.

Lemma run_faucet_fixed txs w :
  admin (faucet (run txs w)) = admin (faucet w) /\
  token (faucet (run txs w)) = token (faucet w) /\
  this (run txs w) = this w.
Proof.
  revert w. induction txs as [|tx txs IH]; intros w; [done|].
  rewrite run_cons. destruct (IH (step tx w)) as (-> & -> & ->).
  apply step_faucet_fixed.
Qed.

(** X4: the admin and the token reference are fixed at construction: after
    any sequence of transactions the admin is still the account that
    deployed the faucet, so [setPaused] from anyone else fails with "Only
    admin can pause faucet". *)
Theorem X4_admin_is_the_deployer_for_good o m a f t w0 txs :
  deploy o m a f t = Ok w0 ->
  admin (faucet (run txs w0)) = a /\
  token (faucet (run txs w0)) = t /\
  forall c v, sender c <> a ->
    transact (setPaused c v) (run txs w0) = (run txs w0, Reverted OnlyAdmin).
Proof.
  intros Hd. destruct (run_faucet_fixed txs w0) as (Ha & Ht & _).
  assert (admin (faucet w0) = a /\ token (faucet w0) = t) as [Ha0 Ht0].
  { revert Hd. unfold deploy, Token.constructor, TokenFaucet.constructor.
    repeat case_match; intros; by simplify_eq. }
  rewrite Ha, Ht, Ha0, Ht0. repeat split.
  intros c v Hc. rewrite setPaused_transact, Ha, Ha0.
  apply N.eqb_neq in Hc. by rewrite Hc.
Qed.

Lemma X4_witness :
  admin (faucet (run (ten_claims 7%N) genesis)) = 1%N /\
  transact (setPaused (mkCtx 7%N 0) true) (run (ten_claims 7%N) genesis)
    = (run (ten_claims 7%N) genesis, Reverted OnlyAdmin).
Proof.
  destruct (X4_admin_is_the_deployer_for_good 1%N 100%N 1%N 100%N 200%N genesis
              (ten_claims 7%N) eq_refl) as (Ha & _ & Hpause).
  split; [exact Ha|]. apply Hpause. discriminate.
Defined.

(** ** Token.sol: the supply *)

Lemma step_supply tx w :
  valid_tx tx ->
  _totalSupply (ledger w) <= _totalSupply (ledger (step tx w)) /\
  (_totalSupply (ledger (step tx w)) <> _totalSupply (ledger w) ->
     tx_call tx = RequestTokens \/
     exists to amount, tx_call tx = Mint to amount).
Proof.
  intros Htx. pose proof FAUCET_AMOUNT_pos.
  destruct tx as [c [|v|to amount|m|to amount]]; unfold step;
    cbn [tx_ctx tx_call dispatch].
  - rewrite requestTokens_transact. repeat case_match; cbn; split; auto; lia.
  - rewrite setPaused_transact. case_match; cbn; split; try done; lia.
  - rewrite mint_transact.
    destruct (valid_tx_amount c to amount (or_introl Htx)) as [Hamount _].
    case_match; cbn; split; eauto; lia.
  - rewrite setMinter_transact. repeat case_match; cbn; split; try done; lia.
  - rewrite transfer_transact. case_match; cbn; split; try done; lia.
Qed.

(** X5: tokens are never burnt: along any sequence of well-formed
    transactions the total supply does not decrease, and the only
    transactions that change it are [requestTokens] and [mint]. *)
Theorem X5_supply_never_decreases txs w :
  forallb valid_txb txs = true ->
  _totalSupply (ledger w) <= _totalSupply (ledger (run txs w)) /\
  (_totalSupply (ledger (run txs w)) <> _totalSupply (ledger w) ->
     exists tx, In tx txs /\
       (tx_call tx = RequestTokens \/ exists to amount, tx_call tx = Mint to amount)).
Proof.
  revert w. induction txs as [|tx txs IH]; intros w Hv; [cbn; split; [lia|done]|].
  cbn in Hv. apply andb_true_iff in Hv as [Htx Hv].
  rewrite run_cons. destruct (IH (step tx w) Hv) as [Hle Hchg].
  destruct (step_supply tx w Htx) as [Hle1 Hchg1]. split; [lia|].
  intros Hne.
  destruct (decide (_totalSupply (ledger (step tx w)) = _totalSupply (ledger w)))
    as [Heq|Hne1].
  - destruct Hchg as (tx' & Hin & Hkind); [congruence|].
    exists tx'. split; [by right | done].
  - exists tx. split; [by left | auto].
Qed.

Lemma X5_witness :
  _totalSupply (ledger genesis)
    <= _totalSupply (ledger (run [claim_at 7%N 86400; pause_tx] genesis)).
Proof.
  exact (proj1 (X5_supply_never_decreases [claim_at 7%N 86400; pause_tx] genesis
                  eq_refl)).
Defined.

(** X6: whatever the per-account quotas allow, the faucet as a whole can
    pay at most [MAX_SUPPLY / FAUCET_AMOUNT = 1000] claims: the claims in
    the log, at [FAUCET_AMOUNT] each, never add up to more than the total
    supply. *)
Theorem X6_claims_bounded_by_supply w :
  reachable w ->
  claims_total (events w) * FAUCET_AMOUNT <= _totalSupply (ledger w) /\
  claims_total (events w) <= 1000.
Proof.
  intros Hr.
  assert (claims_total (events w) * FAUCET_AMOUNT <= _totalSupply (ledger w)) as Hle.
  { revert w Hr. apply reachable_cases.
    - intros o m a f t w. unfold deploy, Token.constructor, TokenFaucet.constructor.
      repeat case_match; intros; simplify_eq. done.
    - intros w c _ IH _ _ _. destruct (claimed_fields c w) as (_ & _ & _ & -> & -> & _).
      rewrite claims_total_app.
      change (claims_total [_; _]) with 1. lia.
    - intros w c v _ IH _. cbn. rewrite claims_total_app.
      change (claims_total [_]) with 0. lia.
    - intros w c to amount _ IH [Hamount _] _. cbn. rewrite claims_total_app.
      change (claims_total [_]) with 0. lia.
    - intros w c m _ IH _ _. cbn. rewrite claims_total_app.
      change (claims_total [_]) with 0. lia.
    - intros w c to amount _ IH _ _. cbn. rewrite claims_total_app.
      change (claims_total [_]) with 0. lia. }
  split; [done|].
  pose proof (supply_capped w (reachable_consistent w Hr)) as Hcap.
  change MAX_SUPPLY with (1000 * 100000000000000000000) in Hcap.
  change FAUCET_AMOUNT with 100000000000000000000 in Hle. lia.
Qed.

Lemma X6_witness :
  reachable exhausted /\ claims_total (events exhausted) <= 1000.
Proof.
  split; [exact reachable_exhausted|].
  exact (proj2 (X6_claims_bounded_by_supply exhausted reachable_exhausted)).
Defined.

(** ** TokenFaucet.sol: how a claim can fail *)

(** X7: on a reachable state [requestTokens] fails only with one of six
    reason strings (paused, cooldown, lifetime limit, and the three checks
    of [Token.mint]); it never aborts on an arithmetic check or on the
    reentrancy lock. *)
Theorem X7_claim_failure_kinds w c w' e :
  reachable w ->
  transact (requestTokens c) w = (w', Reverted e) ->
  e = FaucetPausedError \/ e = CooldownActive \/ e = LifetimeLimitReached \/
  e = OnlyMinter \/ e = ZeroAddress \/ e = SupplyExceeded.
Proof. apply requestTokens_failure_kinds. Qed.

Lemma X7_witness :
  reachable exhausted /\
  (SupplyExceeded = FaucetPausedError \/ SupplyExceeded = CooldownActive \/
   SupplyExceeded = LifetimeLimitReached \/ SupplyExceeded = OnlyMinter \/
   SupplyExceeded = ZeroAddress \/ SupplyExceeded = SupplyExceeded).
Proof.
  split; [exact reachable_exhausted|].
  refine (X7_claim_failure_kinds exhausted (mkCtx 7%N 950400) exhausted _
            reachable_exhausted _).
  by vm_compute.
Defined.

(** X8: an account that never claimed starts with [lastClaimAt = 0], so
    on a faucet that is not paused, is the minter and has supply left, its
    first claim succeeds exactly when [block.timestamp >= COOLDOWN_TIME];
    before that it is rejected as being in cooldown. *)
Theorem X8_first_claim w A t :
  reachable w -> claims_of A (events w) = 0 ->
  paused (faucet w) = false -> this w = minter (ledger w) ->
  A <> ZERO_ADDRESS ->
  _totalSupply (ledger w) + FAUCET_AMOUNT <= MAX_SUPPLY ->
  (COOLDOWN_TIME <= t -> outcome (requestTokens (mkCtx A t)) w = Success) /\
  (t < COOLDOWN_TIME ->
     transact (requestTokens (mkCtx A t)) w = (w, Reverted CooldownActive)).
Proof.
  intros Hr Hfresh Hp Hmin HA Hroom.
  pose proof (reachable_consistent w Hr) as Hw.
  pose proof (unclaimed_last w Hw A Hfresh) as Hlast.
  pose proof (claimed_counts w Hw A) as Hcl. rewrite Hfresh in Hcl.
  unfold outcome. rewrite requestTokens_transact, (consistent_guard_failure _ _ Hw).
  rewrite (consistent_mint_failure _ _ _ _ Hw) by (by vm_compute).
  cbn [sender timestamp]. rewrite Hp, Hlast, Hcl.
  apply N.eqb_eq in Hmin. apply N.eqb_neq in HA. rewrite Hmin, HA. cbn [negb].
  pose proof MAX_SUPPLY_fits.
  assert ((MAX_CLAIM_AMOUNT <? 0 * FAUCET_AMOUNT + FAUCET_AMOUNT) = false)
    as -> by (by vm_compute).
  assert ((MAX_UINT256 <? _totalSupply (ledger w) + FAUCET_AMOUNT) = false)
    as -> by (apply Z.ltb_ge; lia).
  assert ((MAX_SUPPLY <? _totalSupply (ledger w) + FAUCET_AMOUNT) = false)
    as -> by (apply Z.ltb_ge; lia).
  split; intros Ht.
  - assert ((t <? 0 + COOLDOWN_TIME) = false) as -> by (apply Z.ltb_ge; lia). done.
  - assert ((t <? 0 + COOLDOWN_TIME) = true) as -> by (apply Z.ltb_lt; lia). done.
Qed.

Lemma X8_witness :
  outcome (requestTokens (mkCtx 7%N 86400)) genesis = Success /\
  transact (requestTokens (mkCtx 7%N 86399)) genesis = (genesis, Reverted CooldownActive).
Proof.
  assert (_totalSupply (ledger genesis) + FAUCET_AMOUNT <= MAX_SUPPLY) as Hroom
    by (by vm_compute).
  assert (7%N <> ZERO_ADDRESS) as HA by discriminate.
  destruct (X8_first_claim genesis 7%N 86400 reachable_genesis eq_refl eq_refl
              eq_refl HA Hroom) as [Hok _].
  destruct (X8_first_claim genesis 7%N 86399 reachable_genesis eq_refl eq_refl
              eq_refl HA Hroom) as [_ Hearly].
  split; [apply Hok; by vm_compute | apply Hearly; by vm_compute].
Defined.

(** X9: the two read-only queries agree: on a reachable state
    [remainingAllowance A] is [FAUCET_AMOUNT] times the number of claims
    [A] has left out of ten; when [canClaim A] is true at least one claim
    is left, and when nothing is left [canClaim A] is false. *)
Theorem X9_canClaim_and_remainingAllowance w c A :
  reachable w ->
  view (remainingAllowance A) w
    = Ok ((10 - claims_of A (events w)) * FAUCET_AMOUNT) /\
  (view (canClaim c A) w = Ok true -> claims_of A (events w) < 10) /\
  (view (remainingAllowance A) w = Ok 0 -> view (canClaim c A) w = Ok false).
Proof.
  intros Hr. pose proof (reachable_consistent w Hr) as Hw.
  destruct (consistent_claim_count w A Hw) as [Hk Hn].
  pose proof (claimed_capped w Hw A) as Hcap.
  assert (view (remainingAllowance A) w
          = Ok ((10 - claims_of A (events w)) * FAUCET_AMOUNT)) as Hrem.
  { unfold view. rewrite remainingAllowance_run. cbn [fst].
    apply Z.leb_le in Hcap as ->. rewrite Hn.
    change MAX_CLAIM_AMOUNT with (10 * 100000000000000000000).
    change FAUCET_AMOUNT with 100000000000000000000.
    case_match; bool_to_prop; f_equal; lia. }
  assert (view (canClaim c A) w = Ok true -> claims_of A (events w) < 10) as Hcan.
  { unfold view. rewrite canClaim_run. cbn [fst]. rewrite Hn.
    change MAX_CLAIM_AMOUNT with (10 * 100000000000000000000).
    change FAUCET_AMOUNT with 100000000000000000000.
    repeat case_match; intros; simplify_eq. bool_to_prop. lia. }
  split; [done|]. split; [done|].
  rewrite Hrem. intros [= H0].
  assert (claims_of A (events w) = 10) as H10.
  { change FAUCET_AMOUNT with 100000000000000000000 in H0. lia. }
  unfold view in *. rewrite (consistent_canClaim w c A Hw) in *. cbn [fst] in *.
  destruct (guard_failure _ w); [done|].
  specialize (Hcan eq_refl). lia.
Qed.

Lemma X9_witness :
  reachable (run (ten_claims 7%N) genesis) /\
  view (remainingAllowance 7%N) (run (ten_claims 7%N) genesis) = Ok 0 /\
  view (canClaim (mkCtx 7%N 950400) 7%N) (run (ten_claims 7%N) genesis) = Ok false.
Proof.
  destruct (X9_canClaim_and_remainingAllowance _ (mkCtx 7%N 950400) 7%N
              reachable_ten_claims) as (Hrem & _ & Hzero).
  assert (view (remainingAllowance 7%N) (run (ten_claims 7%N) genesis) = Ok 0)
    as H0 by (by vm_compute).
  split; [exact reachable_ten_claims|]. split; [exact H0 | exact (Hzero H0)].
Defined.

(** ** TokenFaucet.sol: the claim record against the log *)

Lemma claim_times_one a e :
  claim_times a [e] =
    match e with
    | TokensClaimed user _ t => if (user =? a)%N then [t] else []
    | _ => []
    end.
Proof. unfold claim_times. cbn. apply app_nil_r. Qed.

(** X10: the claim record mirrors the log: on a reachable state
    [lastClaimAt A] is the timestamp of the latest [TokensClaimed] event of
    [A] (0 if there is none), and the timestamps of the successive claims of
    [A] are at least [COOLDOWN_TIME] apart, the first one being at least
    [COOLDOWN_TIME] itself. *)
Theorem X10_claim_history w A :
  reachable w ->
  slot (lastClaimAt (faucet w)) A = List.last (claim_times A (events w)) 0 /\
  spaced_from 0 (claim_times A (events w)).
Proof.
  revert w. apply reachable_cases.
  - intros o m a f t w. unfold deploy, Token.constructor, TokenFaucet.constructor.
    repeat case_match; intros; simplify_eq. cbn. by rewrite slot_empty.
  - intros w c _ [IHl IHs] _ Hg _.
    apply guard_failure_None in Hg as (_ & _ & _ & Hcool & _ & _).
    destruct (claimed_fields c w) as (-> & _ & _ & _ & -> & _).
    change [Transfer ZERO_ADDRESS (sender c) FAUCET_AMOUNT;
            TokensClaimed (sender c) FAUCET_AMOUNT (timestamp c)]
      with ([Transfer ZERO_ADDRESS (sender c) FAUCET_AMOUNT]
            ++ [TokensClaimed (sender c) FAUCET_AMOUNT (timestamp c)]).
    rewrite !claim_times_app, !claim_times_one, app_nil_l, slot_insert.
    case_decide as HA.
    + subst A. rewrite N.eqb_refl, list_last_snoc, spaced_from_snoc.
      rewrite <- IHl. done.
    + apply N.eqb_neq in HA. rewrite HA, app_nil_r. done.
  - intros w c v _ IH _. cbn -[claim_times].
    by rewrite claim_times_app, claim_times_one, app_nil_r.
  - intros w c to amount _ IH _ _. cbn -[claim_times].
    by rewrite claim_times_app, claim_times_one, app_nil_r.
  - intros w c m _ IH _ _. cbn -[claim_times].
    by rewrite claim_times_app, claim_times_one, app_nil_r.
  - intros w c to amount _ IH _ _. cbn -[claim_times].
    by rewrite claim_times_app, claim_times_one, app_nil_r.
Qed.

Lemma X10_witness :
  reachable (run (ten_claims 7%N) genesis) /\
  slot (lastClaimAt (faucet (run (ten_claims 7%N) genesis))) 7%N
    = List.last (claim_times 7%N (events (run (ten_claims 7%N) genesis))) 0.
Proof.
  split; [exact reachable_ten_claims|].
  exact (proj1 (X10_claim_history _ 7%N reachable_ten_claims)).
Defined.

(** ** scripts/deploy.js *)

(** X11: the deployment script cannot get past its first step: it
    deploys [Token] with the zero address as minter, which the constructor
    rejects with "Minter cannot be zero address", whoever deploys and
    whatever addresses the contracts would get. The zero address is all
    that is wrong with it: with any other initial minter the same three
    steps leave a reachable system in which the faucet is the minter and
    the deployer is owner and admin. *)
Theorem X11_deploy_main_reverts deployer tokenAddress faucetAddress now :
  deploy_main deployer tokenAddress faucetAddress now = Err ZeroMinter /\
  (forall initialMinter,
     initialMinter <> ZERO_ADDRESS -> tokenAddress <> ZERO_ADDRESS ->
     faucetAddress <> ZERO_ADDRESS -> is_timestamp now ->
     exists w,
       deploy_steps initialMinter deployer tokenAddress faucetAddress now = Ok w /\
       reachable w /\
       minter (ledger w) = faucetAddress /\ this w = faucetAddress /\
       _owner (ledger w) = deployer /\ admin (faucet w) = deployer /\
       paused (faucet w) = false /\ _totalSupply (ledger w) = 0).
Proof.
  split; [done|]. intros initialMinter Hm Ht Hf Hnow.
  assert (deploy deployer initialMinter deployer faucetAddress tokenAddress
          = Ok (mkWorld (mkToken ∅ 0 initialMinter deployer)
                        (mkFaucet tokenAddress deployer false ∅ ∅ false)
                        faucetAddress [])) as Hd.
  { unfold deploy, Token.constructor, TokenFaucet.constructor.
    apply N.eqb_neq in Hm, Ht. by rewrite Hm, Ht. }
  unfold deploy_steps, Token.constructor, TokenFaucet.constructor.
  apply N.eqb_neq in Hm as Hmb. apply N.eqb_neq in Ht as Htb. rewrite Hmb, Htb.
  rewrite setMinter_transact. cbn [ledger _owner sender].
  rewrite N.eqb_refl. apply N.eqb_neq in Hf as Hfb. rewrite Hfb. cbn [negb].
  eexists. split; [reflexivity|]. split; [|done].
  pose proof (reachable_step (mkTx (mkCtx deployer now) (SetMinter faucetAddress))
                _ (reachable_deploy _ _ _ _ _ _ Hd)) as Hstep.
  unfold step in Hstep. cbn [tx_ctx tx_call dispatch] in Hstep.
  rewrite setMinter_transact in Hstep. cbn [ledger _owner sender] in Hstep.
  rewrite N.eqb_refl, Hfb in Hstep. apply Hstep.
  unfold valid_tx, valid_txb, is_timestampb. cbn. destruct Hnow.
  rewrite andb_true_r. apply andb_true_iff. split; by apply Z.leb_le.
Qed.

Lemma X11_witness :
  exists w, deploy_steps 5%N 1%N 200%N 100%N 0 = Ok w /\
    minter (ledger w) = 100%N /\ admin (faucet w) = 1%N.
Proof.
  assert (is_timestamp 0) as Hnow by (by vm_compute).
  destruct (proj2 (X11_deploy_main_reverts 1%N 200%N 100%N 0) 5%N)
    as (w & Hw & _ & Hminter & _ & _ & Hadmin & _);
    [discriminate | discriminate | discriminate | exact Hnow |].
  exists w. split; [exact Hw|]. split; [exact Hminter | exact Hadmin].
Defined.

(** ** formatters.js: addresses *)

Import Formatters.

Lemma slice_prefix (s : list ascii) (n : nat) :
  slice s 0 (Some (Z.of_nat n)) = take n s.
Proof.
  unfold slice, clamp_index. cbn [Z.ltb Z.compare].
  destruct (Z.ltb_spec (Z.of_nat n) 0); [lia|].
  rewrite (Z.min_l 0) by lia. rewrite Z.sub_0_r.
  change (Z.to_nat 0) with 0%nat. rewrite drop_0.
  destruct (decide (n <= length s)%nat).
  - f_equal. lia.
  - rewrite Z.min_r by lia. rewrite Nat2Z.id, !take_ge by lia. done.
Qed.

Lemma slice_suffix (s : list ascii) (n : nat) :
  (0 < n)%nat ->
  slice s (- Z.of_nat n) None = drop (length s - n) s.
Proof.
  intros Hn. unfold slice, clamp_index.
  destruct (Z.ltb_spec (- Z.of_nat n) 0); [|lia].
  assert (Z.to_nat (Z.max (Z.of_nat (length s) + - Z.of_nat n) 0)
          = (length s - n)%nat) as -> by lia.
  apply take_ge. rewrite length_drop. lia.
Qed.

Lemma formatAddress_nonempty (s : list ascii) :
  s <> [] ->
  formatAddress (Some s) = take 6 s ++ chars "..." ++ drop (length s - 4) s /\
  length (formatAddress (Some s))
    = (Nat.min 6 (length s) + 3 + Nat.min 4 (length s))%nat.
Proof.
  intros Hs.
  assert (formatAddress (Some s)
          = take 6 s ++ chars "..." ++ drop (length s - 4) s) as Heq.
  { destruct s as [|c s]; [done|]. unfold formatAddress.
    by rewrite (slice_prefix _ 6), (slice_suffix _ 4) by lia. }
  split; [done|].
  rewrite Heq, !length_app, length_take, length_drop.
  change (length (chars "...")) with 3%nat. lia.
Qed.

(** X12: [formatAddress] answers the empty string for a missing or empty
    argument; for any other string it answers its first six characters,
    three dots and its last four characters, so the result has
    [min 6 n + 3 + min 4 n] characters for an input of [n]: a string of ten
    characters or more loses exactly its middle, a shorter one comes out
    longer than it went in. *)
Theorem X12_formatAddress s :
  formatAddress None = [] /\ formatAddress (Some []) = [] /\
  (s <> [] ->
     formatAddress (Some s)
       = take 6 s ++ chars "..." ++ drop (length s - 4) s /\
     length (formatAddress (Some s))
       = (Nat.min 6 (length s) + 3 + Nat.min 4 (length s))%nat /\
     ((10 <= length s)%nat ->
        exists middle, length middle = (length s - 10)%nat /\
          s = take 6 s ++ middle ++ drop (length s - 4) s) /\
     ((length s < 10)%nat -> (length s < length (formatAddress (Some s)))%nat)).
Proof.
  split; [done|]. split; [done|]. intros Hs.
  destruct (formatAddress_nonempty s Hs) as [Heq Hlen].
  split; [done|]. split; [done|]. split.
  - intros Hlong. exists (take (length s - 10) (drop 6 s)). split.
    + rewrite length_take, length_drop. lia.
    + rewrite <- (take_drop 6 s) at 1. f_equal.
      rewrite <- (take_drop (length s - 10) (drop 6 s)) at 1. f_equal.
      rewrite drop_drop. f_equal. lia.
  - intros Hshort. rewrite Hlen. destruct s; [done|]. cbn [length] in *. lia.
Qed.

Lemma X12_witness :
  formatAddress (Some (chars "0x52908400098527886E0F7030069857D2E4169EE7"))
    = chars "0x5290...9EE7" /\
  formatAddress (Some (chars "abc")) = chars "abc...abc".
Proof.
  destruct (X12_formatAddress (chars "0x52908400098527886E0F7030069857D2E4169EE7"))
    as (_ & _ & Hlong).
  destruct (X12_formatAddress (chars "abc")) as (_ & _ & Hshort).
  split.
  - exact (proj1 (Hlong ltac:(discriminate))).
  - exact (proj1 (Hshort ltac:(discriminate))).
Defined.

(** The characters the class [[a-fA-F0-9]] accepts. *)
Lemma hex_class_spec (c : ascii) :
  existsb (in_range c) [("a", "f"); ("A", "F"); ("0", "9")]%char = true <->
  In c (chars "0123456789abcdefABCDEF").
Proof.
  split.
  - destruct c as [[] [] [] [] [] [] [] []]; vm_compute; intros H;
      try discriminate H; tauto.
  - intros H. cbn in H. destruct_or?; subst; try done.
Qed.

Lemma match_prefix_times_class ranges n (s : list ascii) :
  match_prefix (Times n (Class ranges)) s =
    if (n <=? length s)%nat &&
       forallb (fun c => existsb (in_range c) ranges) (take n s)
    then [drop n s] else [].
Proof.
  change (match_prefix (Times n (Class ranges)) s) with
    (Nat.iter n (fun rests => flat_map (match_prefix (Class ranges)) rests) [s]).
  induction n as [|n IH]; [done|].
  rewrite Nat.iter_succ, IH. clear IH.
  destruct (decide (n < length s)%nat) as [Hlt|Hge].
  - destruct (lookup_lt_is_Some_2 s n Hlt) as [c Hc].
    rewrite (take_S_r s n c Hc), forallb_app, (drop_S s c n Hc).
    assert ((n <=? length s)%nat = true) as -> by (apply Nat.leb_le; lia).
    assert ((S n <=? length s)%nat = true) as -> by (apply Nat.leb_le; lia).
    cbn. destruct (forallb _ (take n s)); cbn; [|done].
    by destruct (existsb (in_range c) ranges).
  - assert ((S n <=? length s)%nat = false) as -> by (apply Nat.leb_gt; lia).
    cbn [andb]. destruct (_ && _); [|done].
    cbn. rewrite drop_ge by lia. done.
Qed.

(** X13: [isValidAddress] accepts exactly the strings made of ["0x"] and
    forty characters among [0-9], [a-f] and [A-F]: in particular only
    strings of 42 characters, with a lower-case [x], upper and lower case
    digits alike (no checksum is looked at); and what [formatAddress] makes
    of such a string is ["0x"], four digits, three dots and four digits. *)
Theorem X13_isValidAddress s :
  (isValidAddress s = true <->
     exists digits, s = chars "0x" ++ digits /\ length digits = 40%nat /\
       Forall (fun c => In c (chars "0123456789abcdefABCDEF")) digits) /\
  (isValidAddress s = true ->
     length s = 42%nat /\
     length (formatAddress (Some s)) = 13%nat /\
     take 2 (formatAddress (Some s)) = chars "0x").
Proof.
  assert (isValidAddress s = true <->
     exists digits, s = chars "0x" ++ digits /\ length digits = 40%nat /\
       Forall (fun c => In c (chars "0123456789abcdefABCDEF")) digits) as Hspec.
  { unfold isValidAddress, test_anchored, ADDRESS_PATTERN.
    remember (Times 40 (Class [("a", "f"); ("A", "F"); ("0", "9")]%char))
      as hex eqn:Hhex.
    cbn [match_prefix].
    destruct s as [|c0 [|c1 digits]]; cbn [flat_map existsb app].
    - split; [done|]. intros (d & Hd & _). done.
    - destruct (Ascii.eqb "0" c0); cbn; (split; [done|]);
        intros (d & Hd & _); done.
    - destruct (Ascii.eqb_spec "0" c0) as [<-|Hc0]; cbn [flat_map app].
      + destruct (Ascii.eqb_spec "x" c1) as [<-|Hc1]; cbn [flat_map app].
        * rewrite app_nil_r, Hhex, match_prefix_times_class.
          destruct (_ && _) eqn:H; cbn.
          -- apply andb_true_iff in H as [Hlen Hall].
             apply Nat.leb_le in Hlen. rewrite forallb_forall in Hall.
             destruct (drop 40 digits) eqn:Hdrop.
             ++ assert (length digits = 40%nat) as Hl.
                { apply (f_equal length) in Hdrop. rewrite length_drop in Hdrop.
                  cbn in Hdrop. lia. }
                split; [|done]. intros _. exists digits. repeat split; [done|].
                rewrite take_ge in Hall by lia.
                apply Forall_forall. intros c Hc. apply hex_class_spec, Hall.
                by apply list_elem_of_In.
             ++ split; [done|]. intros (d & [= <-] & Hl & _).
                rewrite drop_ge in Hdrop by lia. done.
          -- split; [done|]. intros (d & [= <-] & Hl & Hall).
             apply andb_false_iff in H as [H|H].
             ++ apply Nat.leb_gt in H. lia.
             ++ rewrite take_ge in H by lia.
                assert (forallb (fun c => existsb (in_range c)
                  [("a", "f"); ("A", "F"); ("0", "9")]%char) digits = true);
                  [|congruence].
                apply forallb_forall. intros c Hc. apply hex_class_spec.
                rewrite Forall_forall in Hall. apply Hall.
                by apply list_elem_of_In.
        * split; [done|]. intros (d & [= ] & _). done.
      + split; [done|]. intros (d & [= ] & _). done. }
  split; [done|]. intros Hv. apply Hspec in Hv as (digits & -> & Hl & _).
  destruct (formatAddress_nonempty (chars "0x" ++ digits)) as [Heq Hlen]; [done|].
  rewrite Hlen, Heq, length_app, Hl. done.
Qed.

Lemma X13_witness :
  isValidAddress (chars "0x52908400098527886E0F7030069857D2E4169EE7") = true /\
  length (formatAddress (Some (chars "0x52908400098527886E0F7030069857D2E4169EE7")))
    = 13%nat.
Proof.
  assert (isValidAddress (chars "0x52908400098527886E0F7030069857D2E4169EE7") = true)
    as Hv by (by vm_compute).
  split; [exact Hv|].
  exact (proj1 (proj2 (proj2 (X13_isValidAddress _) Hv))).
Defined.

(** ** formatters.js: time and percentages *)

Lemma show_ends_with (l : list ascii) (c : ascii) : last (l ++ [c]) = Some c.
Proof. apply last_snoc. Qed.

(** X14: for integer arguments [formatTimeRemaining] answers ["Ready"]
    exactly when the current time has reached the end of the cooldown;
    before that it splits the remaining seconds into days, hours (below
    24), minutes (below 60) and seconds (below 60), and prints days and
    hours if there is a day left, else hours and minutes if there is an
    hour left, else the minutes alone: the seconds are never shown, so the
    last minute reads ["0m"]. *)
Theorem X14_formatTimeRemaining cooldownEnd now :
  is_safe_integer cooldownEnd -> is_safe_integer now ->
  (formatTimeRemaining cooldownEnd now = chars "Ready" <-> cooldownEnd <= now) /\
  (now < cooldownEnd ->
     exists days hours minutes seconds,
       cooldownEnd - now = days * 86400 + hours * 3600 + minutes * 60 + seconds /\
       0 <= days /\ 0 <= hours < 24 /\ 0 <= minutes < 60 /\ 0 <= seconds < 60 /\
       formatTimeRemaining cooldownEnd now =
         if 0 <? days then show days ++ chars "d " ++ show hours ++ chars "h"
         else if 0 <? hours
              then show hours ++ chars "h " ++ show minutes ++ chars "m"
              else show minutes ++ chars "m").
Proof.
  intros _ _. unfold formatTimeRemaining.
  destruct (Z.leb_spec cooldownEnd now) as [Hle|Hlt].
  - split; [by split|]. lia.
  - set (remaining := cooldownEnd - now).
    assert (0 < remaining) as Hpos by (unfold remaining; lia).
    clearbody remaining.
    rewrite !Z.rem_mod_nonneg by lia.
    split.
    + split; [|lia]. intros Heq. apply (f_equal last) in Heq.
      revert Heq. change (last (chars "Ready")) with (Some "y"%char).
      change (chars "h") with ["h"%char]. change (chars "m") with ["m"%char].
      repeat case_match; rewrite ?app_assoc, show_ends_with; discriminate.
    + intros _.
      exists (remaining / 86400), (remaining mod 86400 / 3600),
             (remaining mod 3600 / 60), (remaining mod 60).
      split; [|split; [|split; [|split; [|split]]]]; try done;
        Z.div_mod_to_equations; lia.
Qed.

Lemma X14_witness :
  formatTimeRemaining 86400 86400 = chars "Ready" /\
  exists days hours minutes seconds,
    86459 - 86400 = days * 86400 + hours * 3600 + minutes * 60 + seconds /\
    formatTimeRemaining 86459 86400 =
      if 0 <? days then show days ++ chars "d " ++ show hours ++ chars "h"
      else if 0 <? hours
           then show hours ++ chars "h " ++ show minutes ++ chars "m"
           else show minutes ++ chars "m".
Proof.
  assert (is_safe_integer 86400) as H1 by (by vm_compute).
  assert (is_safe_integer 86459) as H2 by (by vm_compute).
  split.
  - apply (proj1 (X14_formatTimeRemaining 86400 86400 H1 H1)). lia.
  - destruct (proj2 (X14_formatTimeRemaining 86459 86400 H2 H1))
      as (d & h & m & s & Hsum & _ & _ & _ & _ & Hfmt); [lia|].
    exists d, h, m, s. split; [exact Hsum | exact Hfmt].
Defined.

(** X15: [calculatePercentage] never returns a percentage: it returns the
    Number 0 when [total === 0], and in every other case it throws; when
    both arguments convert to BigInts and the total is not zero, the error
    is the TypeError of [Math.round] applied to a BigInt. *)
Theorem X15_calculatePercentage `{Numbers} (current total : JsValue) :
  (forall v, calculatePercentage current total = inr v ->
     is_number_zero total = true /\ v = JsNumber zero) /\
  (is_number_zero total = false ->
   forall c t, BigInt current = inr c -> BigInt total = inr t -> t <> 0 ->
     calculatePercentage current total = inl TypeError).
Proof.
  unfold calculatePercentage. split.
  - intros v. destruct (is_number_zero total); [by intros [= <-]|].
    destruct (BigInt current); [done|]. destruct (BigInt total); [done|].
    destruct (bigint_div _ _); done.
  - intros -> c t -> -> Ht. unfold bigint_div.
    apply Z.eqb_neq in Ht. by rewrite Ht.
Qed.

Lemma X15_witness :
  @calculatePercentage integer_numbers
    (@JsNumber integer_numbers 50) (@JsNumber integer_numbers 200)
    = inl TypeError.
Proof.
  refine (proj2 (@X15_calculatePercentage integer_numbers
                   (@JsNumber integer_numbers 50) (@JsNumber integer_numbers 200))
            eq_refl 50 200 eq_refl eq_refl _).
  discriminate.
Defined.

(** ** App: the claim timer, the balance and the error messages *)

Import App.



Lemma two_digits (c : Z) :
  0 <= c < 100 -> padStart 2 "0" (show c) = [digit (c / 10); digit (c mod 10)].
Proof.
  intros Hc.
  assert (forallb (fun n => bool_decide
            (padStart 2 "0" (show (Z.of_nat n))
             = [digit (Z.of_nat n / 10); digit (Z.of_nat n mod 10)]))
            (seq 0 100) = true) as Hall by (by vm_compute).
  rewrite forallb_forall in Hall.
  assert (In (Z.to_nat c) (seq 0 100)) as Hin by (apply in_seq; lia).
  specialize (Hall _ Hin). rewrite Z2Nat.id in Hall by lia.
  by apply bool_decide_eq_true in Hall.
Qed.

(** X17: [formatBalance] cuts a balance to two decimals and never rounds
    up: for a balance [b > 0] in base units it prints the whole tokens
    [b / 10^18], a dot and the two digits of [(b / 10^16) mod 100]; a
    missing or zero balance prints ["0.00"]; and a balance made of [k]
    claims prints [100 k] followed by [".00"]. *)
Theorem X17_formatBalance b :
  0 < b ->
  formatBalance None = chars "0.00" /\
  formatBalance (Some 0) = chars "0.00" /\
  (exists whole cents,
     whole * 100 + cents = b / 10 ^ 16 /\ 0 <= cents < 100 /\
     formatBalance (Some b)
       = show whole ++ chars "." ++ [digit (cents / 10); digit (cents mod 10)]) /\
  (forall k, b = k * FAUCET_AMOUNT ->
     formatBalance (Some b) = show (100 * k) ++ chars ".00").
Proof.
  intros Hb. split; [done|]. split; [done|].
  change (10 ^ 16) with 10000000000000000.
  assert (formatBalance (Some b)
          = show (b / 1000000000000000000) ++ chars "."
            ++ [digit ((b mod 1000000000000000000 / 10000000000000000) / 10);
                digit ((b mod 1000000000000000000 / 10000000000000000) mod 10)])
    as Heq.
  { unfold formatBalance.
    assert ((b =? 0) = false) as -> by (apply Z.eqb_neq; lia).
    change (10 ^ 18) with 1000000000000000000.
    change (10 ^ 16) with 10000000000000000. cbv zeta.
    rewrite Z.rem_mod_nonneg by lia. rewrite (Z.quot_div_nonneg b) by lia.
    rewrite Z.quot_div_nonneg by (Z.div_mod_to_equations; lia).
    rewrite two_digits; [done|]. Z.div_mod_to_equations. lia. }
  split.
  - exists (b / 1000000000000000000),
           (b mod 1000000000000000000 / 10000000000000000).
    split; [|split; [|done]]; Z.div_mod_to_equations; lia.
  - intros k ->. rewrite Heq.
    change FAUCET_AMOUNT with (100 * 1000000000000000000) in *.
    replace (k * (100 * 1000000000000000000) / 1000000000000000000) with (100 * k)
      by (rewrite Z.mul_assoc, Z.div_mul; lia).
    replace (k * (100 * 1000000000000000000) mod 1000000000000000000) with 0
      by (rewrite Z.mul_assoc, Z.mod_mul; lia).
    done.
Qed.

Lemma X17_witness :
  formatBalance (Some FAUCET_AMOUNT) = show (100 * 1) ++ chars ".00" /\
  exists whole cents,
    whole * 100 + cents = 1999999999999999999 / 10 ^ 16 /\ 0 <= cents < 100 /\
    formatBalance (Some 1999999999999999999)
      = show whole ++ chars "." ++ [digit (cents / 10); digit (cents mod 10)].
Proof.
  split.
  - refine (proj2 (proj2 (proj2 (X17_formatBalance FAUCET_AMOUNT _))) 1 _);
      by vm_compute.
  - refine (proj1 (proj2 (proj2 (X17_formatBalance 1999999999999999999 _)))).
    by vm_compute.
Defined.

(** X18: what the App tells the user when a claim is rejected on a
    reachable state: the three rejections of the faucet itself get their
    own message (the reason the contract gives is what [requestTokens] of
    the contract utilities rethrows), while the three rejections of
    [Token.mint] match none of the patterns and are shown as the raw
    reason string. *)
Theorem X18_claim_error_shown w c w' e dataMessage message :
  reachable w ->
  transact (requestTokens c) w = (w', Reverted e) ->
  exists reason shown, e = Revert reason /\
    claimErrorMessage
      (Contracts.requestTokensError (Some (chars reason)) dataMessage message)
      = shown /\
    ((e = FaucetPausedError /\ shown = chars "🔒 Faucet is currently paused") \/
     (e = CooldownActive /\
      shown = chars "⏳ Please wait 24 hours before claiming again") \/
     (e = LifetimeLimitReached /\
      shown = chars "⛔ You have reached your lifetime claim limit") \/
     ((e = OnlyMinter \/ e = ZeroAddress \/ e = SupplyExceeded) /\
      shown = chars reason)).
Proof.
  intros Hr Hfail.
  destruct (requestTokens_failure_kinds w c w' e Hr Hfail)
    as [-> | [-> | [-> | [-> | [-> | ->]]]]]; eexists _, _;
    (split; [reflexivity|]); (split; [by vm_compute|]); auto 10.
Qed.

Lemma X18_witness :
  reachable exhausted /\
  transact (requestTokens (mkCtx 7%N 950400)) exhausted
    = (exhausted, Reverted SupplyExceeded) /\
  exists reason shown, SupplyExceeded = Revert reason /\
    claimErrorMessage (Contracts.requestTokensError (Some (chars reason)) None [])
      = shown.
Proof.
  assert (transact (requestTokens (mkCtx 7%N 950400)) exhausted
          = (exhausted, Reverted SupplyExceeded)) as Hfail by (by vm_compute).
  split; [exact reachable_exhausted|]. split; [exact Hfail|].
  destruct (X18_claim_error_shown exhausted (mkCtx 7%N 950400) exhausted
              SupplyExceeded None [] reachable_exhausted Hfail)
    as (reason & shown & Hreason & Hshown & _).
  exists reason, shown. split; [exact Hreason | exact Hshown].
Defined.

(** ** The wallet utilities *)

Import Wallet.

Lemma handler_keeps_address ev st :
  (walletConnected st = true -> connectedAddress st <> None) ->
  walletConnected (handler ev st) = true ->
  connectedAddress (handler ev st) <> None.
Proof. destruct ev as [[|account accounts]| |]; cbn; auto; done. Qed.

Lemma handler_listeners ev st : listeners (handler ev st) = listeners st.
Proof. by destruct ev as [[|account accounts]| |]. Qed.

Lemma iter_handler ev n st :
  listeners (Nat.iter n (handler ev) st) = listeners st /\
  length (dispatched (Nat.iter n (handler ev) st))
    = (length (dispatched st) + n)%nat /\
  ((walletConnected st = true -> connectedAddress st <> None) ->
   walletConnected (Nat.iter n (handler ev) st) = true ->
   connectedAddress (Nat.iter n (handler ev) st) <> None).
Proof.
  induction n as [|n (IHl & IHd & IHa)]; [cbn; split; [done|split; [lia|done]]|].
  rewrite Nat.iter_succ. split; [|split].
  - by rewrite handler_listeners.
  - destruct ev as [[|account accounts]| |]; cbn; rewrite length_app, IHd;
      cbn; lia.
  - intros Hst. apply handler_keeps_address. by apply IHa.
Qed.

Lemma act_listeners a st :
  listeners (act a st) = (listeners st + connects [a])%nat.
Proof.
  destruct a as [[] [[[|account accounts]|]|message]| |ev]; cbn; try lia.
  unfold provider_emits. rewrite (proj1 (iter_handler ev _ st)). lia.
Qed.

Lemma act_keeps_address a st :
  (walletConnected st = true -> connectedAddress st <> None) ->
  walletConnected (act a st) = true -> connectedAddress (act a st) <> None.
Proof.
  intros Hst.
  destruct a as [[] [[[|account accounts]|]|message]| |ev]; cbn; try done.
  by apply iter_handler.
Qed.

Lemma connects_app l l' : connects (l ++ l') = (connects l + connects l')%nat.
Proof. unfold connects. by rewrite List.filter_app, length_app. Qed.

Lemma acts_snoc l a st : acts (l ++ [a]) st = act a (acts l st).
Proof. unfold acts. by rewrite fold_left_app. Qed.

(** X19: whatever the user and the provider do, the module never holds
    [walletConnected = true] without an address, so the test on the
    address in [isWalletConnected] never decides: [isWalletConnected ()]
    is [walletConnected]. *)
Theorem X19_connected_has_address (actions : list Action) :
  (walletConnected (acts actions initial) = true ->
     getConnectedAddress (acts actions initial) <> None) /\
  isWalletConnected (acts actions initial)
    = walletConnected (acts actions initial).
Proof.
  assert (walletConnected (acts actions initial) = true ->
          connectedAddress (acts actions initial) <> None) as Hinv.
  { induction actions as [|a actions IH] using rev_ind; [done|].
    rewrite acts_snoc. by apply act_keeps_address. }
  split; [done|]. unfold isWalletConnected.
  destruct (walletConnected _); [|done].
  by destruct (connectedAddress _); [|destruct (Hinv eq_refl)].
Qed.

Lemma X19_witness :
  isWalletConnected
    (acts [Connect true (Accounts (Some [chars "0xabc"])); Emits (accountsChanged [])]
       initial)
  = false.
Proof.
  refine (eq_trans (proj2 (X19_connected_has_address _)) _). reflexivity.
Defined.

(** X20: [disconnectWallet] clears the address, but it leaves the
    handlers registered: once the wallet has been connected, the next
    [accountsChanged] of the provider after a disconnect puts an address
    back while the module stays disconnected, so [getConnectedAddress ()]
    answers an address although [isWalletConnected ()] answers false. *)
Theorem X20_address_after_disconnect st account accounts :
  (0 < listeners st)%nat ->
  getConnectedAddress (disconnectWallet st) = None /\
  isWalletConnected (disconnectWallet st) = false /\
  getConnectedAddress
    (provider_emits (accountsChanged (account :: accounts)) (disconnectWallet st))
    = Some account /\
  isWalletConnected
    (provider_emits (accountsChanged (account :: accounts)) (disconnectWallet st))
    = false.
Proof.
  intros Hn. split; [done|]. split; [done|].
  assert (forall k s, walletConnected s = false ->
            connectedAddress
              (Nat.iter (S k) (handler (accountsChanged (account :: accounts))) s)
              = Some account /\
            walletConnected
              (Nat.iter (S k) (handler (accountsChanged (account :: accounts))) s)
              = false) as Hiter.
  { induction k as [|k IH]; intros s Hs; [by cbn|].
    rewrite Nat.iter_succ. destruct (IH s Hs) as [_ Hc]. by cbn. }
  unfold provider_emits, getConnectedAddress, isWalletConnected.
  change (listeners (disconnectWallet st)) with (listeners st).
  destruct (listeners st) as [|n]; [lia|].
  destruct (Hiter n (disconnectWallet st) eq_refl) as [-> ->]. done.
Qed.

Lemma X20_witness :
  getConnectedAddress
    (provider_emits (accountsChanged [chars "0xdef"])
       (disconnectWallet
          (acts [Connect true (Accounts (Some [chars "0xabc"]))] initial)))
    = Some (chars "0xdef").
Proof.
  assert (0 < listeners
    (acts [Connect true (Accounts (Some [chars "0xabc"]))] initial))%nat as Hn
    by (cbn; lia).
  destruct (X20_address_after_disconnect _ (chars "0xdef") [] Hn)
    as (_ & _ & Haddress & _).
  exact Haddress.
Defined.

(** X21: every successful [connectWallet] registers the three handlers
    once more and nothing ever removes them: after any history the number
    of registrations is the number of successful connections, and one
    event of the provider is answered by that many events on [window]. *)
Theorem X21_handlers_pile_up (actions : list Action) (ev : ProviderEvent) :
  listeners (acts actions initial) = connects actions /\
  length (dispatched (provider_emits ev (acts actions initial)))
    = (length (dispatched (acts actions initial)) + connects actions)%nat.
Proof.
  assert (listeners (acts actions initial) = connects actions) as Hl.
  { induction actions as [|a actions IH] using rev_ind; [done|].
    rewrite acts_snoc, act_listeners, IH, connects_app. done. }
  split; [done|]. unfold provider_emits.
  rewrite (proj1 (proj2 (iter_handler ev _ _))), Hl. done.
Qed.

(** X22: how [connectWallet] ends. Without a provider it throws and
    leaves the module as it was; with a provider, a rejection or an empty
    answer throws a message starting with "Failed to connect wallet: " and
    disconnects the module, even if it was connected before the call; it
    returns an address only when the wallet answered a non-empty array, and
    then this address is the first of the array and the module is
    connected to it. *)
Theorem X22_connectWallet hasWallet response st :
  (hasWallet = false ->
     connectWallet hasWallet response st
       = (inl (chars "MetaMask or Web3 wallet not detected"), st)) /\
  (hasWallet = true ->
   forall message, fst (connectWallet hasWallet response st) = inl message ->
     take 26 message = chars "Failed to connect wallet: " /\
     isWalletConnected (snd (connectWallet hasWallet response st)) = false /\
     getConnectedAddress (snd (connectWallet hasWallet response st)) = None) /\
  (forall account, fst (connectWallet hasWallet response st) = inr account ->
     (exists accounts, response = Accounts (Some (account :: accounts))) /\
     isWalletConnected (snd (connectWallet hasWallet response st)) = true /\
     getConnectedAddress (snd (connectWallet hasWallet response st))
       = Some account).
Proof.
  split; [by intros ->|]. split.
  - intros -> message.
    destruct response as [[[|account accounts]|]|m]; cbn; intros [= <-]; done.
  - intros account.
    destruct hasWallet; [|done].
    destruct response as [[[|a accounts]|]|m]; cbn; intros [= <-]; eauto.
Qed.

Lemma X22_witness :
  isWalletConnected
    (snd (connectWallet true (Rejected (chars "User rejected the request."))
            (acts [Connect true (Accounts (Some [chars "0xabc"]))] initial)))
  = false.
Proof.
  destruct (X22_connectWallet true (Rejected (chars "User rejected the request."))
              (acts [Connect true (Accounts (Some [chars "0xabc"]))] initial))
    as (_ & Hfail & _).
  destruct (Hfail eq_refl _ eq_refl) as (_ & Hdisconnected & _).
  exact Hdisconnected.
Defined.
